(** * oauth2-proxy: session state codec and redis session store

    A shallow embedding of

    - package [sessions] ([pkg/apis/sessions]): [SessionState],
      [IsExpired], [Age], [String], [EncodeSessionState],
      [DecodeSessionState];
    - package [redis] ([pkg/sessions/redis]): [NewRedisSessionStore],
      [newRedisCmdable], [Save], [Load], [Clear], [storeValue],
      [getTicket], [newTicket], [decodeTicket], [encodeTicket];
    - [providers/provider_default.go]: [RefreshSessionIfNeeded],
      [CreateSessionStateFromBearerToken].

    Go strings are byte strings: [string] here, [list ascii] for [[]byte].
    The Go standard library is modelled only as far as these functions use
    it: [encoding/hex] and [encoding/base64] concretely, cipher feedback
    mode over an arbitrary block function, [encoding/json] through the
    object a text denotes. *)

From Stdlib Require Import ZArith Ascii String List Bool Lia DecimalString DecimalZ.
From stdpp Require Import base option list strings gmap.

Local Open Scope Z_scope.

(* ===================================================================== *)
(** * Results, errors, mutable state *)
(* ===================================================================== *)

(** Go's [error] values, by the place that creates them.  [ErrWrap] is
    [fmt.Errorf("<prefix>: %s", err)]. *)
Inductive error : Type :=
| ErrNoCookie                      (* http.ErrNoCookie *)
| ErrSignature                     (* "cookie signature not valid" *)
| ErrRandom                        (* io.ReadFull(rand.Reader, _) failed *)
| ErrKeySize (n : nat)             (* aes.KeySizeError(n) *)
| ErrRedisNil                      (* the key is not in the cache *)
| ErrRedis (msg : string)          (* the cache cannot be reached *)
| ErrTicketHandle                  (* "failed to decode ticket handle" *)
| ErrTicketParts                   (* "failed to decode ticket" *)
| ErrTicketSanity                  (* "server ticket failed sanity checks" *)
| ErrTicketSecret                  (* "failed to decode initialization vector" *)
| ErrJSONSyntax                    (* json: the text is not an object *)
| ErrJSONType (field : string)     (* json: the member has the wrong type *)
| ErrTimeFormat                    (* time: MarshalJSON / UnmarshalJSON *)
| ErrCipher (msg : string)         (* an error of encryption.Cipher *)
| ErrWrap (prefix : string) (e : error).

(** A call returns a value, returns an error, or panics. *)
Inductive outcome (A : Type) : Type :=
| Ok (a : A)
| Err (e : error)
| Panic (msg : string).
Arguments Ok {A} a.
Arguments Err {A} e.
Arguments Panic {A} msg.

(** The [(value, error)] pair of a call that does not panic. *)
Inductive result (A : Type) : Type :=
| Success (a : A)
| Failure (e : error).
Arguments Success {A} a.
Arguments Failure {A} e.

Definition returned {A} (r : result A) : outcome A :=
  match r with
  | Success a => Ok a
  | Failure e => Err e
  end.

Definition is_Ok {A} (o : outcome A) : bool :=
  match o with Ok _ => true | _ => false end.

Definition obind {A B} (o : outcome A) (k : A -> outcome B) : outcome B :=
  match o with
  | Ok a => k a
  | Err e => Err e
  | Panic m => Panic m
  end.

#[global] Instance outcome_ret : MRet outcome := fun A a => Ok a.
#[global] Instance outcome_bind : MBind outcome := fun A B k o => obind o k.

(** [time.Time] as an instant: nanoseconds since Go's zero time
    (January 1, year 1, 00:00 UTC); [time.Duration] in nanoseconds.  Two
    times are compared as instants ([Time.Equal]), as the repository's
    tests do. *)
Definition Time : Type := Z.
Definition Duration : Type := Z.

Definition time_IsZero (t : Time) : bool := t =? 0.
Definition time_Before (t u : Time) : bool := t <? u.
Definition time_Add (t : Time) (d : Duration) : Time := t + d.
Definition Hour : Duration := 3600 * 1000000000.

(* ===================================================================== *)
(** * Bytes, hexadecimal and base64 *)
(* ===================================================================== *)

Definition xor_byte (a b : ascii) : ascii :=
  match a, b with
  | Ascii a0 a1 a2 a3 a4 a5 a6 a7, Ascii b0 b1 b2 b3 b4 b5 b6 b7 =>
      Ascii (xorb a0 b0) (xorb a1 b1) (xorb a2 b2) (xorb a3 b3)
            (xorb a4 b4) (xorb a5 b5) (xorb a6 b6) (xorb a7 b7)
  end.

Definition bytes_of (s : string) : list ascii := list_ascii_of_string s.
Definition string_of (b : list ascii) : string := string_of_list_ascii b.

Module Hex.

(** Four bits, most significant first. *)
Definition nibble : Type := (bool * bool * bool * bool)%type.

Definition nibble_index (n : nibble) : nat :=
  let '(b3, b2, b1, b0) := n in
  (if b3 then 8 else 0) + (if b2 then 4 else 0) +
  (if b1 then 2 else 0) + (if b0 then 1 else 0).

Definition hextable : list ascii := bytes_of "0123456789abcdef".

Definition digit (n : nibble) : ascii := nth (nibble_index n) hextable "0"%char.

(** [fromHexChar]: both letter cases are accepted. *)
Definition fromHexChar (c : ascii) : option nibble :=
  match c with
  | "0" => Some (false, false, false, false)
  | "1" => Some (false, false, false, true)
  | "2" => Some (false, false, true, false)
  | "3" => Some (false, false, true, true)
  | "4" => Some (false, true, false, false)
  | "5" => Some (false, true, false, true)
  | "6" => Some (false, true, true, false)
  | "7" => Some (false, true, true, true)
  | "8" => Some (true, false, false, false)
  | "9" => Some (true, false, false, true)
  | "a" | "A" => Some (true, false, true, false)
  | "b" | "B" => Some (true, false, true, true)
  | "c" | "C" => Some (true, true, false, false)
  | "d" | "D" => Some (true, true, false, true)
  | "e" | "E" => Some (true, true, true, false)
  | "f" | "F" => Some (true, true, true, true)
  | _ => None
  end%char.

Definition byte_of_nibbles (h l : nibble) : ascii :=
  let '(h3, h2, h1, h0) := h in
  let '(l3, l2, l1, l0) := l in
  Ascii l0 l1 l2 l3 h0 h1 h2 h3.

Fixpoint encode (b : list ascii) : list ascii :=
  match b with
  | [] => []
  | Ascii b0 b1 b2 b3 b4 b5 b6 b7 :: r =>
      digit (b7, b6, b5, b4) :: digit (b3, b2, b1, b0) :: encode r
  end.

Fixpoint decode (cs : list ascii) : option (list ascii) :=
  match cs with
  | [] => Some []
  | [_] => None
  | c1 :: c2 :: r =>
      match fromHexChar c1, fromHexChar c2 with
      | Some h, Some l =>
          match decode r with
          | Some bs => Some (byte_of_nibbles h l :: bs)
          | None => None
          end
      | _, _ => None
      end
  end.

(** [hex.EncodeToString] and [hex.DecodeString]. *)
Definition EncodeToString (b : list ascii) : string := string_of (encode b).
Definition DecodeString (s : string) : option (list ascii) := decode (bytes_of s).

End Hex.

Module Base64.

(** Six bits, most significant first. *)
Definition sextet : Type := (bool * bool * bool * bool * bool * bool)%type.

Definition sextet_index (s : sextet) : nat :=
  let '(b5, b4, b3, b2, b1, b0) := s in
  (if b5 then 32 else 0) + (if b4 then 16 else 0) + (if b3 then 8 else 0) +
  (if b2 then 4 else 0) + (if b1 then 2 else 0) + (if b0 then 1 else 0).

Definition all_sextets : list sextet :=
  b5 ← [false; true]; b4 ← [false; true]; b3 ← [false; true];
  b2 ← [false; true]; b1 ← [false; true]; b0 ← [false; true];
  [(b5, b4, b3, b2, b1, b0)].

(** The URL-safe alphabet of [base64.RawURLEncoding]. *)
Definition encodeURL : list ascii :=
  bytes_of "ABCDEFGHIJKLMNOPQRSTUVWXYZabcdefghijklmnopqrstuvwxyz0123456789-_".

Definition char_of (s : sextet) : ascii := nth (sextet_index s) encodeURL "A"%char.

(** The decode map: the sextet whose character is [c], if any. *)
Definition sextet_of (c : ascii) : option sextet :=
  List.find (fun s => Ascii.eqb (char_of s) c) all_sextets.

(** No padding: a final group of one or two bytes is written as two or
    three characters. *)
Fixpoint encode (b : list ascii) : list ascii :=
  match b with
  | [] => []
  | [Ascii a0 a1 a2 a3 a4 a5 a6 a7] =>
      [char_of (a7, a6, a5, a4, a3, a2);
       char_of (a1, a0, false, false, false, false)]
  | [Ascii a0 a1 a2 a3 a4 a5 a6 a7; Ascii b0 b1 b2 b3 b4 b5 b6 b7] =>
      [char_of (a7, a6, a5, a4, a3, a2);
       char_of (a1, a0, b7, b6, b5, b4);
       char_of (b3, b2, b1, b0, false, false)]
  | Ascii a0 a1 a2 a3 a4 a5 a6 a7 :: Ascii b0 b1 b2 b3 b4 b5 b6 b7
      :: Ascii c0 c1 c2 c3 c4 c5 c6 c7 :: r =>
      char_of (a7, a6, a5, a4, a3, a2) ::
      char_of (a1, a0, b7, b6, b5, b4) ::
      char_of (b3, b2, b1, b0, c7, c6) ::
      char_of (c5, c4, c3, c2, c1, c0) :: encode r
  end.

(** One quantum of up to four characters.  The decoder is not strict: the
    bits of a final partial quantum that do not fill a byte are dropped
    without a check. *)
Fixpoint decode (cs : list ascii) : option (list ascii) :=
  match cs with
  | [] => Some []
  | [_] => None
  | [c1; c2] =>
      match sextet_of c1, sextet_of c2 with
      | Some (a7, a6, a5, a4, a3, a2), Some (a1, a0, _, _, _, _) =>
          Some [Ascii a0 a1 a2 a3 a4 a5 a6 a7]
      | _, _ => None
      end
  | [c1; c2; c3] =>
      match sextet_of c1, sextet_of c2, sextet_of c3 with
      | Some (a7, a6, a5, a4, a3, a2), Some (a1, a0, b7, b6, b5, b4),
        Some (b3, b2, b1, b0, _, _) =>
          Some [Ascii a0 a1 a2 a3 a4 a5 a6 a7; Ascii b0 b1 b2 b3 b4 b5 b6 b7]
      | _, _, _ => None
      end
  | c1 :: c2 :: c3 :: c4 :: r =>
      match sextet_of c1, sextet_of c2, sextet_of c3, sextet_of c4 with
      | Some (a7, a6, a5, a4, a3, a2), Some (a1, a0, b7, b6, b5, b4),
        Some (b3, b2, b1, b0, c7, c6), Some (c5, c4, c3, c2, c1, c0) =>
          match decode r with
          | Some bs =>
              Some (Ascii a0 a1 a2 a3 a4 a5 a6 a7 :: Ascii b0 b1 b2 b3 b4 b5 b6 b7
                    :: Ascii c0 c1 c2 c3 c4 c5 c6 c7 :: bs)
          | None => None
          end
      | _, _, _, _ => None
      end
  end.

(** The decoder skips carriage returns and line feeds. *)
Definition is_newline (c : ascii) : bool :=
  Ascii.eqb c "010"%char || Ascii.eqb c "013"%char.

(** [base64.RawURLEncoding.EncodeToString] and [.DecodeString]. *)
Definition EncodeToString (b : list ascii) : string := string_of (encode b).
Definition DecodeString (s : string) : option (list ascii) :=
  decode (List.filter (fun c => negb (is_newline c)) (bytes_of s)).

End Base64.

(* ===================================================================== *)
(** * The [strings] package *)
(* ===================================================================== *)

Fixpoint HasPrefix (s p : string) {struct p} : bool :=
  match p with
  | EmptyString => true
  | String a p' =>
      match s with
      | String b s' => Ascii.eqb a b && HasPrefix s' p'
      | EmptyString => false
      end
  end.

Fixpoint string_drop (n : nat) (s : string) : string :=
  match n, s with
  | O, _ => s
  | S n', String _ s' => string_drop n' s'
  | S _, EmptyString => EmptyString
  end.

Definition TrimPrefix (s p : string) : string :=
  if HasPrefix s p then string_drop (String.length p) s else s.

(** [strings.Split(s, sep)] for a separator of one byte: the pieces between
    the separators, one more than there are separators. *)
Fixpoint Split (s : string) (sep : ascii) : list string :=
  match s with
  | EmptyString => [EmptyString]
  | String c r =>
      if Ascii.eqb c sep then EmptyString :: Split r sep
      else match Split r sep with
           | p :: ps => String c p :: ps
           | [] => [String c EmptyString]
           end
  end.

Definition nonempty (s : string) : bool :=
  match s with EmptyString => false | String _ _ => true end.

Fixpoint string_all (P : ascii -> bool) (s : string) : bool :=
  match s with
  | EmptyString => true
  | String c r => P c && string_all P r
  end.

(** No byte of [s] is [sep]. *)
Definition free_of (sep : ascii) (s : string) : bool :=
  string_all (fun c => negb (Ascii.eqb c sep)) s.


(* ===================================================================== *)
(** * [crypto/aes] and [crypto/cipher]: cipher feedback mode *)
(* ===================================================================== *)

(** The AES block function itself is left open: [block_encrypt key b] is
    the encryption of the 16-byte block [b] under [key].  Nothing below
    depends on which function it is. *)
Class BlockCipher := block_encrypt : list ascii -> list ascii -> list ascii.

Definition BlockSize : nat := 16.

(** [aes.NewCipher]: the key has 16, 24 or 32 bytes. *)
Definition aes_NewCipher (key : list ascii) : outcome (list ascii) :=
  let n := length key in
  if ((n =? 16) || (n =? 24) || (n =? 32))%nat then Ok key else Err (ErrKeySize n).

(** The key sizes of AES-128, AES-192 and AES-256. *)
Definition aes_key_length (n : nat) : Prop := n = 16%nat \/ n = 24%nat \/ n = 32%nat.

(** The stream of [cipher.NewCFBEncrypter] / [NewCFBDecrypter]: the block
    key, the 16-byte register [next] that collects the ciphertext, the
    current key stream block [out] and how much of it is used. *)
Record cfb : Type := {
  cfb_b : list ascii;
  cfb_next : list ascii;
  cfb_out : list ascii;
  cfb_outUsed : nat;
  cfb_decrypt : bool
}.

(** [newCFB] panics unless the initialization vector is one block long. *)
Definition newCFB (block iv : list ascii) (decrypt : bool) : outcome cfb :=
  if (length iv =? BlockSize)%nat
  then Ok {| cfb_b := block; cfb_next := iv; cfb_out := replicate BlockSize "000"%char;
             cfb_outUsed := BlockSize; cfb_decrypt := decrypt |}
  else Panic "cipher.newCFB: IV length must equal block size".

Definition NewCFBEncrypter (block iv : list ascii) : outcome cfb := newCFB block iv false.
Definition NewCFBDecrypter (block iv : list ascii) : outcome cfb := newCFB block iv true.

Section CFB.
Context {aes : BlockCipher}.

(** [XORKeyStream], one byte of [src] at a time: refill the key stream when
    it is used up, xor, and store the ciphertext byte (the output when
    encrypting, the input when decrypting) in the register. *)
Fixpoint xorKeyStream (block next out : list ascii) (outUsed : nat) (decrypt : bool)
  (src : list ascii) : list ascii :=
  match src with
  | [] => []
  | x :: src' =>
      let refill := (outUsed =? BlockSize)%nat in
      let out' := if refill then block_encrypt block next else out in
      let used := if refill then O else outUsed in
      let y := xor_byte x (nth used out' "000"%char) in
      let next' := <[used := if decrypt then x else y]> next in
      y :: xorKeyStream block next' out' (S used) decrypt src'
  end.

Definition XORKeyStream (x : cfb) (src : list ascii) : list ascii :=
  xorKeyStream (cfb_b x) (cfb_next x) (cfb_out x) (cfb_outUsed x) (cfb_decrypt x) src.

End CFB.

(* ===================================================================== *)
(** * [encoding/json], as far as [SessionState] needs it *)
(* ===================================================================== *)

(** The value of an object member: [null], a string, or anything else (a
    number, a boolean, an array, an object). *)
Inductive jvalue : Type :=
| JNull
| JString (s : string)
| JOther.

(** A JSON object: its members in the order of the text. *)
Definition jobject : Type := list (string * jvalue).

(** The text layer of [encoding/json] and of [time.Time]'s JSON methods.
    [json_text o] is the text [json.Marshal] writes for the object [o];
    [json_parse v] is the object [json.Unmarshal] reads from [v], [None]
    when [v] is not the text of an object.  [time_text] is
    [Time.MarshalJSON] (RFC 3339; it fails for a year outside 0..9999),
    [time_parse] is [Time.UnmarshalJSON]. *)
Class JSONText := {
  json_text : jobject -> string;
  json_parse : string -> option jobject;
  time_text : Time -> option string;
  time_parse : string -> option Time
}.

(** An object as [json.Marshal] writes one for a struct of strings and
    times: every member is a string. *)
Definition is_JString (v : jvalue) : bool :=
  match v with JString _ => true | _ => false end.

Definition marshalled (o : jobject) : bool := forallb (fun kv => is_JString kv.2) o.

(** What the library guarantees: a marshalled text parses back to the
    object it was written from, and a marshalled time to the same instant.
    (Strings are taken to be valid UTF-8, which [encoding/json] keeps.) *)
Class JSONTextLaws (J : JSONText) : Prop := {
  json_parse_text : forall o, marshalled o = true -> json_parse (json_text o) = Some o;
  time_parse_text : forall t s, time_text t = Some s -> time_parse s = Some t
}.

(* ===================================================================== *)
(** * [encryption.Cipher] *)
(* ===================================================================== *)

(** Modelled from the spec: [pkg/encryption/cipher.go] is not among the
    sources.  A cipher encrypts a string under a nonce it draws from the
    random source (which can fail), and decrypts a ciphertext or reports
    an error. *)
Record Cipher : Type := {
  Encrypt : string -> list ascii -> result string * list ascii;
  Decrypt : string -> result string
}.

(** Modelled from the spec: decryption inverts encryption, and a
    ciphertext carries its nonce, so it is never empty. *)
Class CipherLaws (c : Cipher) : Prop := {
  Decrypt_Encrypt :
    forall p r ct r', Encrypt c p r = (Success ct, r') -> Decrypt c ct = Success p;
  Encrypt_nonempty :
    forall p r ct r', Encrypt c p r = (Success ct, r') -> ct <> EmptyString
}.

(* ===================================================================== *)
(** * Cookies, the cache and the state a request handler works on *)
(* ===================================================================== *)

(** [http.Cookie], with the fields the session store sets or reads. *)
Record Cookie : Type := {
  Name : string;
  Value : string;
  Expires : Time
}.

Record Request : Type := { Cookies : list Cookie }.

(** [req.Cookie(name)]: the first cookie of that name, or
    [http.ErrNoCookie]. *)
Definition req_Cookie (req : Request) (name : string) : outcome Cookie :=
  match List.find (fun c => String.eqb (Name c) name) (Cookies req) with
  | Some c => Ok c
  | None => Err ErrNoCookie
  end.

Definition AddCookie (req : Request) (c : Cookie) : Request :=
  {| Cookies := Cookies req ++ [c] |}.

(** Modelled from the spec: the [Client] interface of the redis store
    ([Get], [Set], [Del]) is not among the sources.  The cache is a table
    from keys to byte strings; while [fault] is set every operation fails
    with it.  The time to live handed to [Set] is not tracked: an entry
    stays until it is deleted. *)
Record Redis : Type := {
  entries : gmap string (list ascii);
  fault : option error
}.

(** What one request handler reads and writes: the clock, the random
    source (the bytes it will still deliver), the shared cache, and the
    [Set-Cookie] headers written to the response so far. *)
Record World : Type := {
  clock : Time;
  entropy : list ascii;
  redis : Redis;
  response : list Cookie
}.

Definition set_entropy (e : list ascii) (w : World) : World :=
  {| clock := clock w; entropy := e; redis := redis w; response := response w |}.

Definition set_redis (r : Redis) (w : World) : World :=
  {| clock := clock w; entropy := entropy w; redis := r; response := response w |}.

Definition set_response (c : list Cookie) (w : World) : World :=
  {| clock := clock w; entropy := entropy w; redis := redis w; response := c |}.

(** A handler step: state in, result and state out.  An error or a panic
    ends the handler; the state changes made before it stay. *)
Definition M (A : Type) : Type := World -> outcome A * World.

Definition ret {A} (a : A) : M A := fun w => (Ok a, w).
Definition fail {A} (e : error) : M A := fun w => (Err e, w).
Definition lift {A} (o : outcome A) : M A := fun w => (o, w).

Definition bind {A B} (m : M A) (k : A -> M B) : M B :=
  fun w =>
    match m w with
    | (Ok a, w') => k a w'
    | (Err e, w') => (Err e, w')
    | (Panic msg, w') => (Panic msg, w')
    end.

(** [if err != nil { return fmt.Errorf("<prefix> %s", err) }] *)
Definition wrapping {A} (prefix : string) (m : M A) : M A :=
  fun w =>
    match m w with
    | (Err e, w') => (Err (ErrWrap prefix e), w')
    | r => r
    end.

Notation "'let*' x := m 'in' k" := (bind m (fun x => k))
  (at level 10, x name, m at level 100, k at level 200, only parsing).

Definition Now : M Time := fun w => (Ok (clock w), w).

(** [m] does not panic, and an error it returns is one of [Q]. *)
Definition fails_with {A} (Q : error -> Prop) (m : M A) : Prop :=
  forall w, match (m w).1 with
            | Ok _ => True
            | Err e => Q e
            | Panic _ => False
            end.

(** [m] leaves the clock, the cache and the response as they are. *)
Definition draws_only {A} (m : M A) : Prop :=
  forall w r w', m w = (r, w') ->
    clock w' = clock w /\ redis w' = redis w /\ response w' = response w.

(** [io.ReadFull(rand.Reader, buf)] for a buffer of [n] bytes. *)
Definition rand_ReadFull (n : nat) : M (list ascii) :=
  fun w =>
    if (length (entropy w) <? n)%nat then (Err ErrRandom, w)
    else (Ok (take n (entropy w)), set_entropy (drop n (entropy w)) w).

Definition redis_Get (key : string) : M (list ascii) :=
  fun w =>
    match fault (redis w) with
    | Some e => (Err e, w)
    | None =>
        match entries (redis w) !! key with
        | Some v => (Ok v, w)
        | None => (Err ErrRedisNil, w)
        end
    end.

Definition redis_Set (key : string) (value : list ascii) (expiration : Duration) : M unit :=
  fun w =>
    match fault (redis w) with
    | Some e => (Err e, w)
    | None =>
        (Ok tt, set_redis {| entries := <[key := value]> (entries (redis w));
                             fault := fault (redis w) |} w)
    end.

Definition redis_Del (key : string) : M unit :=
  fun w =>
    match fault (redis w) with
    | Some e => (Err e, w)
    | None =>
        (Ok tt, set_redis {| entries := delete key (entries (redis w));
                             fault := fault (redis w) |} w)
    end.

(** [http.SetCookie(rw, cookie)] *)
Definition SetCookie (c : Cookie) : M unit :=
  fun w => (Ok tt, set_response (response w ++ [c]) w).

(* ===================================================================== *)
(** * Package [sessions]: the session state *)
(* ===================================================================== *)

Record SessionState : Type := {
  AccessToken : string;
  IDToken : string;
  CreatedAt : option Time;
  ExpiresOn : option Time;
  RefreshToken : string;
  Email : string;
  User : string;
  PreferredUsername : string
}.

(** [var ss SessionState] *)
Definition zero_SessionState : SessionState :=
  {| AccessToken := ""; IDToken := ""; CreatedAt := None; ExpiresOn := None;
     RefreshToken := ""; Email := ""; User := ""; PreferredUsername := "" |}.

Definition IsExpired (s : SessionState) (now : Time) : bool :=
  match ExpiresOn s with
  | Some t => negb (time_IsZero t) && time_Before t now
  | None => false
  end.

Inductive field : Type :=
| FAccessToken | FIDToken | FCreatedAt | FExpiresOn
| FRefreshToken | FEmail | FUser | FPreferredUsername.

Definition fields : list field :=
  [FAccessToken; FIDToken; FCreatedAt; FExpiresOn;
   FRefreshToken; FEmail; FUser; FPreferredUsername].

Definition field_name (f : field) : string :=
  match f with
  | FAccessToken => "AccessToken"
  | FIDToken => "IDToken"
  | FCreatedAt => "CreatedAt"
  | FExpiresOn => "ExpiresOn"
  | FRefreshToken => "RefreshToken"
  | FEmail => "Email"
  | FUser => "User"
  | FPreferredUsername => "PreferredUsername"
  end.

Definition set_string (f : field) (v : string) (s : SessionState) : SessionState :=
  match f with
  | FAccessToken =>
      {| AccessToken := v; IDToken := IDToken s; CreatedAt := CreatedAt s;
         ExpiresOn := ExpiresOn s; RefreshToken := RefreshToken s; Email := Email s;
         User := User s; PreferredUsername := PreferredUsername s |}
  | FIDToken =>
      {| AccessToken := AccessToken s; IDToken := v; CreatedAt := CreatedAt s;
         ExpiresOn := ExpiresOn s; RefreshToken := RefreshToken s; Email := Email s;
         User := User s; PreferredUsername := PreferredUsername s |}
  | FRefreshToken =>
      {| AccessToken := AccessToken s; IDToken := IDToken s; CreatedAt := CreatedAt s;
         ExpiresOn := ExpiresOn s; RefreshToken := v; Email := Email s;
         User := User s; PreferredUsername := PreferredUsername s |}
  | FEmail =>
      {| AccessToken := AccessToken s; IDToken := IDToken s; CreatedAt := CreatedAt s;
         ExpiresOn := ExpiresOn s; RefreshToken := RefreshToken s; Email := v;
         User := User s; PreferredUsername := PreferredUsername s |}
  | FUser =>
      {| AccessToken := AccessToken s; IDToken := IDToken s; CreatedAt := CreatedAt s;
         ExpiresOn := ExpiresOn s; RefreshToken := RefreshToken s; Email := Email s;
         User := v; PreferredUsername := PreferredUsername s |}
  | FPreferredUsername =>
      {| AccessToken := AccessToken s; IDToken := IDToken s; CreatedAt := CreatedAt s;
         ExpiresOn := ExpiresOn s; RefreshToken := RefreshToken s; Email := Email s;
         User := User s; PreferredUsername := v |}
  | FCreatedAt | FExpiresOn => s
  end.

Definition set_time (f : field) (t : option Time) (s : SessionState) : SessionState :=
  match f with
  | FCreatedAt =>
      {| AccessToken := AccessToken s; IDToken := IDToken s; CreatedAt := t;
         ExpiresOn := ExpiresOn s; RefreshToken := RefreshToken s; Email := Email s;
         User := User s; PreferredUsername := PreferredUsername s |}
  | FExpiresOn =>
      {| AccessToken := AccessToken s; IDToken := IDToken s; CreatedAt := CreatedAt s;
         ExpiresOn := t; RefreshToken := RefreshToken s; Email := Email s;
         User := User s; PreferredUsername := PreferredUsername s |}
  | _ => s
  end.

Definition get_string (f : field) (s : SessionState) : string :=
  match f with
  | FAccessToken => AccessToken s
  | FIDToken => IDToken s
  | FRefreshToken => RefreshToken s
  | FEmail => Email s
  | FUser => User s
  | FPreferredUsername => PreferredUsername s
  | FCreatedAt | FExpiresOn => ""
  end.

Definition get_time (f : field) (s : SessionState) : option Time :=
  match f with
  | FCreatedAt => CreatedAt s
  | FExpiresOn => ExpiresOn s
  | _ => None
  end.

Definition is_time_field (f : field) : bool :=
  match f with FCreatedAt | FExpiresOn => true | _ => false end.

(** A field holds nothing: the empty string, or the nil pointer. *)
Definition unset (f : field) (s : SessionState) : Prop :=
  if is_time_field f then get_time f s = None else get_string f s = "".

(** ** [json.Marshal] and [json.Unmarshal] of a [SessionState] *)

(** A member name matches a field whatever the case of its letters. *)
Definition to_lower (c : ascii) : ascii :=
  let n := N_of_ascii c in
  if ((65 <=? n) && (n <=? 90))%N then ascii_of_N (n + 32) else c.

Fixpoint lower (s : string) : string :=
  match s with
  | EmptyString => EmptyString
  | String c r => String (to_lower c) (lower r)
  end.

Definition field_of_key (k : string) : option field :=
  List.find (fun f => String.eqb (lower (field_name f)) (lower k)) fields.

Section JSON.
Context {J : JSONText}.

(** The tag [json:",omitempty"]: an empty string and a nil pointer are left
    out of the object. *)
Definition string_member (f : field) (s : SessionState) : jobject :=
  if nonempty (get_string f s) then [(field_name f, JString (get_string f s))] else [].

Definition time_member (f : field) (t : option Time) : outcome jobject :=
  match t with
  | None => Ok []
  | Some t =>
      match time_text t with
      | Some v => Ok [(field_name f, JString v)]
      | None => Err ErrTimeFormat
      end
  end.

Definition toJSON (s : SessionState) : outcome jobject :=
  created ← time_member FCreatedAt (CreatedAt s);
  expires ← time_member FExpiresOn (ExpiresOn s);
  Ok (string_member FAccessToken s ++ string_member FIDToken s ++
      created ++ expires ++
      string_member FRefreshToken s ++ string_member FEmail s ++
      string_member FUser s ++ string_member FPreferredUsername s).

Definition json_Marshal (s : SessionState) : outcome string :=
  o ← toJSON s; Ok (json_text o).

(** Storing one member into its field.  A string field keeps its value on
    [null] and reports a type mismatch on anything but a string; a time
    field becomes nil on [null] and otherwise goes through
    [Time.UnmarshalJSON], whose error ends the decoding. *)
Inductive stored : Type :=
| Stored (s : SessionState)
| Mismatch
| Failed (e : error).

Definition store (f : field) (v : jvalue) (s : SessionState) : stored :=
  if is_time_field f then
    match v with
    | JNull => Stored (set_time f None s)
    | JString t =>
        match time_parse t with
        | Some t' => Stored (set_time f (Some t') s)
        | None => Failed ErrTimeFormat
        end
    | JOther => Failed ErrTimeFormat
    end
  else
    match v with
    | JNull => Stored s
    | JString x => Stored (set_string f x s)
    | JOther => Mismatch
    end.

(** The members are stored in order; a later member of the same name
    overrides an earlier one, an unknown member is skipped, and the first
    type mismatch is reported once the object has been read. *)
Fixpoint fill (o : jobject) (s : SessionState) (saved : option error) : outcome SessionState :=
  match o with
  | [] => match saved with Some e => Err e | None => Ok s end
  | (k, v) :: o' =>
      match field_of_key k with
      | None => fill o' s saved
      | Some f =>
          match store f v s with
          | Stored s' => fill o' s' saved
          | Mismatch => fill o' s (Some (default (ErrJSONType (field_name f)) saved))
          | Failed e => Err e
          end
      end
  end.

Definition json_Unmarshal (v : string) : outcome SessionState :=
  match json_parse v with
  | None => Err ErrJSONSyntax
  | Some o => fill o zero_SessionState None
  end.

(** ** [EncodeSessionState] and [DecodeSessionState] *)

Definition encrypt (c : Cipher) (p : string) : M string :=
  fun w => let '(r, e) := Encrypt c p (entropy w) in (returned r, set_entropy e w).

(** [if ss.F != "" { ss.F, err = c.Encrypt(ss.F); if err != nil { return "", err } }] *)
Definition encrypt_field (c : Cipher) (f : field) (ss : SessionState) : M SessionState :=
  if nonempty (get_string f ss)
  then let* ct := encrypt c (get_string f ss) in ret (set_string f ct ss)
  else ret ss.

Definition EncodeSessionState (s : SessionState) (c : option Cipher) : M string :=
  let* ss :=
    match c with
    | None =>
        (* Store only Email and User when cipher is unavailable *)
        ret {| AccessToken := ""; IDToken := ""; CreatedAt := None; ExpiresOn := None;
               RefreshToken := ""; Email := Email s; User := User s;
               PreferredUsername := PreferredUsername s |}
    | Some c =>
        let* ss := encrypt_field c FEmail s in
        let* ss := encrypt_field c FUser ss in
        let* ss := encrypt_field c FPreferredUsername ss in
        let* ss := encrypt_field c FAccessToken ss in
        let* ss := encrypt_field c FIDToken ss in
        encrypt_field c FRefreshToken ss
    end in
  lift (json_Marshal ss).

(** [if ss.F != "" { d, err := c.Decrypt(ss.F); if err == nil { ss.F = d } }] *)
Definition decrypt_soft (c : Cipher) (f : field) (ss : SessionState) : SessionState :=
  if nonempty (get_string f ss) then
    match Decrypt c (get_string f ss) with
    | Success p => set_string f p ss
    | Failure _ => ss
    end
  else ss.

(** [if ss.F != "" { ss.F, err = c.Decrypt(ss.F); if err != nil { return nil, err } }] *)
Definition decrypt_hard (c : Cipher) (f : field) (ss : SessionState) : outcome SessionState :=
  if nonempty (get_string f ss) then
    p ← returned (Decrypt c (get_string f ss)); Ok (set_string f p ss)
  else Ok ss.

Definition default_user (ss : SessionState) : SessionState :=
  if nonempty (User ss) then ss else set_string FUser (Email ss) ss.

Definition DecodeSessionState (v : string) (c : option Cipher) : outcome SessionState :=
  match json_Unmarshal v with
  | Err e => Err (ErrWrap "error unmarshalling session" e)
  | Panic msg => Panic msg
  | Ok ss =>
      ss ← match c with
           | None =>
               (* Load only Email and User when cipher is unavailable *)
               Ok {| AccessToken := ""; IDToken := ""; CreatedAt := None;
                     ExpiresOn := None; RefreshToken := ""; Email := Email ss;
                     User := User ss; PreferredUsername := PreferredUsername ss |}
           | Some c =>
               (* Backward compatibility with using unencrypted Email *)
               let ss := decrypt_soft c FEmail ss in
               (* Backward compatibility with using unencrypted User *)
               let ss := decrypt_soft c FUser ss in
               ss ← decrypt_hard c FPreferredUsername ss;
               ss ← decrypt_hard c FAccessToken ss;
               ss ← decrypt_hard c FIDToken ss;
               decrypt_hard c FRefreshToken ss
           end;
      Ok (default_user ss)
  end.

End JSON.

(** [ct] is what [EncodeSessionState] leaves in a field that held [p]: an
    empty field stays empty, any other holds a ciphertext of [p]. *)
Definition sealed (c : Cipher) (p ct : string) : Prop :=
  (p = "" /\ ct = "") \/ (p <> "" /\ ct <> "" /\ Decrypt c ct = Success p).

(** What [DecodeSessionState] keeps for an email or user member read as
    [raw]: the plaintext if [raw] decrypts, [raw] itself if it does not. *)
Definition soft_value (c : Cipher) (raw : string) : string :=
  if nonempty raw then
    match Decrypt c raw with
    | Success p => p
    | Failure _ => raw
    end
  else raw.

(** The cipher of a store, when it has one, keeps the cipher laws. *)
Definition lawful (c : option Cipher) : Prop :=
  match c with
  | Some c => CipherLaws c
  | None => True
  end.

(** The fields whose decryption failure [DecodeSessionState] reports. *)
Definition hard_fields : list field :=
  [FPreferredUsername; FAccessToken; FIDToken; FRefreshToken].

(** The field is empty, or decrypts. *)
Definition decrypts (c : Cipher) (raw : string) : Prop :=
  raw = "" \/ exists p, Decrypt c raw = Success p.

(* ===================================================================== *)
(** * Signed cookies *)
(* ===================================================================== *)

(** Modelled from the spec: [encryption.SignedValue] and
    [encryption.Validate] are not among the sources.
    [SignedValue seed key value now] is the envelope
    [value|timestamp|signature]; [Validate cookie seed expiration now]
    gives the raw value and the timestamp of a cookie it accepts at the
    time [now]. *)
Class Signer := {
  SignedValue : string -> string -> string -> Time -> string;
  Validate : Cookie -> string -> Duration -> Time -> option (string * Time)
}.

(** Modelled from the spec: a value signed at [t] under the cookie's name
    is accepted, and given back, unless [t] is in the future or older than
    the maximal age. *)
Class SignerLaws (S : Signer) : Prop := {
  Validate_SignedValue :
    forall seed c value t expiration now,
      Value c = SignedValue seed (Name c) value t ->
      t <= now -> now - t <= expiration ->
      exists t', Validate c seed expiration now = Some (value, t')
}.

Module options.

(** [options.CookieOptions], with the fields the redis store reads. *)
Record CookieOptions : Type := {
  Name : string;
  Secret : string;
  Expire : Duration
}.

End options.

(** Modelled from the spec: [cookies.MakeCookieFromOptions] is not among
    the sources.  The cookie carries the given name and value and expires
    [expiration] after [now]. *)
Definition MakeCookieFromOptions (req : Request) (name value : string)
  (opts : options.CookieOptions) (expiration : Duration) (now : Time) : Cookie :=
  {| Name := name; Value := value; Expires := time_Add now expiration |}.

(* ===================================================================== *)
(** * Package [redis]: the session store *)
(* ===================================================================== *)

Record TicketData : Type := {
  TicketID : string;
  Secret : list ascii
}.

Record SessionStore : Type := {
  CookieCipher : option Cipher;
  CookieOptions : options.CookieOptions
}.

Definition asHandle (ticket : TicketData) (prefix : string) : string :=
  prefix +:+ "-" +:+ TicketID ticket.

Definition encodeTicket (ticket : TicketData) (prefix : string) : string :=
  let handle := asHandle ticket prefix in
  handle +:+ "." +:+ Base64.EncodeToString (Secret ticket).

Definition decodeTicket (cookieName ticketString : string) : outcome TicketData :=
  let prefix := cookieName +:+ "-" in
  if negb (HasPrefix ticketString prefix) then Err ErrTicketHandle
  else
    let trimmedTicket := TrimPrefix ticketString prefix in
    match Split trimmedTicket "."%char with
    | [ticketID; secretBase64] =>
        (* ticketID must be a hexadecimal string *)
        match Hex.DecodeString ticketID with
        | None => Err ErrTicketSanity
        | Some _ =>
            match Base64.DecodeString secretBase64 with
            | None => Err ErrTicketSecret
            | Some secret => Ok {| TicketID := ticketID; Secret := secret |}
            end
        end
    | _ => Err ErrTicketParts
    end.

Definition newTicket : M TicketData :=
  let* rawID := wrapping "failed to create new ticket ID" (rand_ReadFull 16) in
  (* ticketID is hex encoded *)
  let ticketID := Hex.EncodeToString rawID in
  let* secret := wrapping "failed to create initialization vector" (rand_ReadFull BlockSize) in
  ret {| TicketID := ticketID; Secret := secret |}.

Section Store.
Context {aes : BlockCipher} {J : JSONText} {S : Signer}.

(** [makeCookie] makes a cookie, signing the value if present. *)
Definition makeCookie (store : SessionStore) (req : Request) (value : string)
  (expires : Duration) (now : Time) : Cookie :=
  let value :=
    if nonempty value
    then SignedValue (options.Secret (CookieOptions store))
                     (options.Name (CookieOptions store)) value now
    else value in
  MakeCookieFromOptions req (options.Name (CookieOptions store)) value
                        (CookieOptions store) expires now.

(** [getTicket] retrieves an existing ticket from the cookie if present, or
    creates a new ticket. *)
Definition getTicket (store : SessionStore) (requestCookie : option Cookie) : M TicketData :=
  match requestCookie with
  | None => newTicket
  | Some requestCookie =>
      (* An existing cookie exists, try to retrieve the ticket *)
      let* now := Now in
      match Validate requestCookie (options.Secret (CookieOptions store))
                     (options.Expire (CookieOptions store)) now with
      | None =>
          (* Cookie is invalid, create a new ticket *)
          newTicket
      | Some (val, _) =>
          (* Valid cookie, decode the ticket *)
          match decodeTicket (options.Name (CookieOptions store)) val with
          | Ok ticket => ret ticket
          | _ =>
              (* If we can't decode the ticket we have to create a new one *)
              newTicket
          end
      end
  end.

Definition storeValue (store : SessionStore) (value : string) (expiration : Duration)
  (requestCookie : option Cookie) : M string :=
  let* ticket := wrapping "error getting ticket" (getTicket store requestCookie) in
  let* block := wrapping "error initiating cipher block" (lift (aes_NewCipher (Secret ticket))) in
  (* Use secret as the Initialization Vector too, because each entry has it's own key *)
  let* stream := lift (NewCFBEncrypter block (Secret ticket)) in
  let ciphertext := XORKeyStream stream (bytes_of value) in
  let handle := asHandle ticket (options.Name (CookieOptions store)) in
  let* _ := redis_Set handle ciphertext expiration in
  ret (encodeTicket ticket (options.Name (CookieOptions store))).

(** [Save] stamps [CreatedAt] on the session it is given when it is unset;
    the stamped session is the value returned here. *)
Definition Save (store : SessionStore) (req : Request) (s : SessionState) : M SessionState :=
  let* now := Now in
  let s :=
    match CreatedAt s with
    | None => set_time FCreatedAt (Some now) s
    | Some t => if time_IsZero t then set_time FCreatedAt (Some now) s else s
    end in
  (* Old sessions that we are refreshing would have a request cookie
     New sessions don't, so we ignore the error. storeValue will check requestCookie *)
  let requestCookie :=
    match req_Cookie req (options.Name (CookieOptions store)) with
    | Ok c => Some c
    | _ => None
    end in
  let* value := EncodeSessionState s (CookieCipher store) in
  let* ticketString :=
    storeValue store value (options.Expire (CookieOptions store)) requestCookie in
  let ticketCookie :=
    makeCookie store req ticketString (options.Expire (CookieOptions store))
               (default 0 (CreatedAt s)) in
  let* _ := SetCookie ticketCookie in
  ret s.

(** [loadSessionFromString] loads the session based on the ticket value. *)
Definition loadSessionFromString (store : SessionStore) (value : string) : M SessionState :=
  let* ticket := lift (decodeTicket (options.Name (CookieOptions store)) value) in
  let* resultBytes := redis_Get (asHandle ticket (options.Name (CookieOptions store))) in
  let* block := lift (aes_NewCipher (Secret ticket)) in
  (* Use secret as the IV too, because each entry has it's own key *)
  let* stream := lift (NewCFBDecrypter block (Secret ticket)) in
  let resultBytes := XORKeyStream stream resultBytes in
  lift (DecodeSessionState (string_of resultBytes) (CookieCipher store)).

Definition Load (store : SessionStore) (req : Request) : M SessionState :=
  let* requestCookie :=
    wrapping "error loading session"
             (lift (req_Cookie req (options.Name (CookieOptions store)))) in
  let* now := Now in
  match Validate requestCookie (options.Secret (CookieOptions store))
                 (options.Expire (CookieOptions store)) now with
  | None => fail ErrSignature
  | Some (val, _) => wrapping "error loading session" (loadSessionFromString store val)
  end.

(** [Clear] clears any saved session information for a given ticket cookie
    from redis, and then clears the session. *)
Definition Clear (store : SessionStore) (req : Request) : M unit :=
  (* We go ahead and clear the cookie first, always. *)
  let* now := Now in
  let clearCookie := makeCookie store req "" (Hour * -1) now in
  let* _ := SetCookie clearCookie in
  (* If there was an existing cookie we should clear the session in redis *)
  match req_Cookie req (options.Name (CookieOptions store)) with
  | Err ErrNoCookie =>
      (* No existing cookie so can't clear redis *)
      ret tt
  | Err e => fail (ErrWrap "error retrieving cookie" e)
  | Panic msg => lift (Panic msg)
  | Ok requestCookie =>
      match Validate requestCookie (options.Secret (CookieOptions store))
                     (options.Expire (CookieOptions store)) now with
      | None => fail ErrSignature
      | Some (val, _) =>
          (* We only return an error if we had an issue with redis
             If there's an issue decoding the ticket, ignore it *)
          match decodeTicket (options.Name (CookieOptions store)) val with
          | Ok ticket =>
              wrapping "error clearing cookie from redis"
                       (redis_Del (asHandle ticket (options.Name (CookieOptions store))))
          | _ => ret tt
          end
      end
  end.

End Store.

(* ===================================================================== *)
(** * provider_default.go *)
(* ===================================================================== *)

(** [ProviderData], with the fields [provider_default.go] reads. *)
Record ProviderData : Type := {
  ClientID : string;
  Scope : string;
  Prompt : string;
  ApprovalPrompt : string;
  AcrValues : string
}.

(** [RefreshSessionIfNeeded] should refresh the user's session if required
    and do nothing if a refresh is not required. *)
Definition RefreshSessionIfNeeded (p : ProviderData) (s : SessionState) : bool * option error :=
  (false, None).

(** [CreateSessionStateFromBearerToken] reports that the claims of the
    token cannot be read, or that its email is marked as not verified. *)
Inductive bearer_error : Type :=
| ErrBearerClaims (e : error)      (* "failed to parse bearer token claims: %v" *)
| ErrNotVerified (email : string). (* "email in id_token (%s) isn't verified" *)

Module oidc.

(** The claims [CreateSessionStateFromBearerToken] asks for. *)
Record claims : Type := {
  Subject : string;
  Email : string;
  Verified : option bool;
  PreferredUsername : string
}.

(** [oidc.IDToken], with what the provider reads of it: the expiry, and
    what [idToken.Claims(&claims)] leaves in [claims] or returns as error. *)
Record IDToken : Type := {
  Expiry : Time;
  Claims : result claims
}.

End oidc.

Definition CreateSessionStateFromBearerToken (p : ProviderData) (rawIDToken : string)
  (idToken : oidc.IDToken) : bearer_error + SessionState :=
  match oidc.Claims idToken with
  | Failure err => inl (ErrBearerClaims err)
  | Success claims =>
      let email :=
        if nonempty (oidc.Email claims) then oidc.Email claims else oidc.Subject claims in
      match oidc.Verified claims with
      | Some false => inl (ErrNotVerified email)
      | _ =>
          inr {| Email := email; User := email;
                 PreferredUsername := oidc.PreferredUsername claims;
                 AccessToken := rawIDToken; IDToken := rawIDToken; RefreshToken := "";
                 ExpiresOn := Some (oidc.Expiry idToken); CreatedAt := None |}
      end
  end.

(* ===================================================================== *)
(** * Package [sessions]: [Age] and [String] *)
(* ===================================================================== *)

Definition Second : Duration := 1000000000.

(** [t.Truncate(d)]: [t] rounded down to a multiple of [d] since the zero
    time, and [t] itself when [d <= 0]. *)
Definition time_Truncate (t : Time) (d : Duration) : Time :=
  if d <=? 0 then t else t - t mod d.

(** A [Duration] is a 64-bit count of nanoseconds. *)
Definition minDuration : Duration := - 2 ^ 63.
Definition maxDuration : Duration := 2 ^ 63 - 1.

(** [t.Sub(u)]: the duration [t - u], or the least or the greatest
    duration when [t - u] is out of range. *)
Definition time_Sub (t u : Time) : Duration :=
  let d := t - u in
  if d <? minDuration then minDuration
  else if maxDuration <? d then maxDuration
  else d.

Definition Age (s : SessionState) (now : Time) : Duration :=
  match CreatedAt s with
  | Some t => if negb (time_IsZero t) then time_Sub (time_Truncate now Second) t else 0
  | None => 0
  end.

(** [Time.String], which the verb [%s] prints a [*time.Time] with. *)
Class TimeString := time_String : Time -> string.

(** [String] constructs a summary of the session state.  [s.CreatedAt] and
    [s.ExpiresOn] are pointers and [IsZero] has a value receiver: calling
    it through a nil pointer is a nil pointer dereference. *)
Definition SessionState_String {T : TimeString} (s : SessionState) : outcome string :=
  let o := "Session{email:" +:+ Email s +:+ " user:" +:+ User s +:+
           " PreferredUsername:" +:+ PreferredUsername s in
  let o := if nonempty (AccessToken s) then o +:+ " token:true" else o in
  let o := if nonempty (IDToken s) then o +:+ " id_token:true" else o in
  match CreatedAt s with
  | None => Panic "invalid memory address or nil pointer dereference"
  | Some created =>
      let o := if negb (time_IsZero created)
               then o +:+ " created:" +:+ time_String created else o in
      match ExpiresOn s with
      | None => Panic "invalid memory address or nil pointer dereference"
      | Some expires =>
          let o := if negb (time_IsZero expires)
                   then o +:+ " expires:" +:+ time_String expires else o in
          let o := if nonempty (RefreshToken s) then o +:+ " refresh_token:true" else o in
          Ok (o +:+ "}")
      end
  end.

(** The session differs from [s] in the tokens only, and holds a token
    where [s] holds one. *)
Definition same_but_tokens (s s' : SessionState) : Prop :=
  Email s' = Email s /\ User s' = User s /\ PreferredUsername s' = PreferredUsername s /\
  CreatedAt s' = CreatedAt s /\ ExpiresOn s' = ExpiresOn s /\
  nonempty (AccessToken s') = nonempty (AccessToken s) /\
  nonempty (IDToken s') = nonempty (IDToken s) /\
  nonempty (RefreshToken s') = nonempty (RefreshToken s).

(* ===================================================================== *)
(** * Package [redis]: [Save]'s stamp, and the construction of the client *)
(* ===================================================================== *)

(** The [CreatedAt] of a session once [Save] has seen it at the time
    [now]: its own if it has one that is not the zero time, else [now]. *)
Definition created_at (s : SessionState) (now : Time) : Time :=
  match CreatedAt s with
  | Some t => if time_IsZero t then now else t
  | None => now
  end.

(** [ss] is [s] but for the string fields [fs]. *)
Definition but_for (fs : list field) (s ss : SessionState) : Prop :=
  CreatedAt ss = CreatedAt s /\ ExpiresOn ss = ExpiresOn s /\
  forall g, g ∉ fs -> get_string g ss = get_string g s.

(** The request cookie, as [getTicket] sees it at the time [now], carries
    the ticket [t]. *)
Definition carries {S : Signer} (store : SessionStore) (c : Cookie) (now : Time)
  (t : TicketData) : Prop :=
  exists val ts,
    Validate c (options.Secret (CookieOptions store))
             (options.Expire (CookieOptions store)) now = Some (val, ts) /\
    decodeTicket (options.Name (CookieOptions store)) val = Ok t.

(** [options.RedisStoreOptions], with the fields [newRedisCmdable] reads. *)
Record RedisStoreOptions : Type := {
  ConnectionURL : string;
  UseSentinel : bool;
  SentinelMasterName : string;
  SentinelConnectionURLs : list string;
  UseCluster : bool;
  ClusterConnectionURLs : list string;
  CAPath : string;
  InsecureSkipTLSVerify : bool
}.

(** [options.SessionOptions], with the fields [NewRedisSessionStore]
    reads. *)
Record SessionOptions : Type := {
  SessionCipher : option Cipher;      (* Cipher *)
  SessionRedis : RedisStoreOptions    (* Redis *)
}.

(** [crypto/x509]: certificate pools.  [SystemCertPool] is the pool the
    call returns, nil ([None]) when it fails; [AppendCertsFromPEM] gives
    the pool with the certificates found in the text, and whether there
    were any. *)
Class X509 := {
  CertPool : Type;
  NewCertPool : CertPool;
  SystemCertPool : option CertPool;
  AppendCertsFromPEM : CertPool -> list ascii -> CertPool * bool
}.

(** [tls.Config], with the fields [newRedisCmdable] sets. *)
Record tls_Config {X : X509} : Type := {
  InsecureSkipVerify : bool;
  RootCAs : option CertPool;
  ServerName : string
}.

(** [redis.Options]: where to connect, and the TLS configuration, a
    pointer that may be nil. *)
Record redis_Options {X : X509} : Type := {
  Addr : string;
  Password : string;
  DB : Z;
  TLSConfig : option tls_Config
}.

(** What the construction reads from outside: [redis.ParseURL] and
    [ioutil.ReadFile], each with the text of its error. *)
Class Dialer {X : X509} := {
  redis_ParseURL : string -> string + redis_Options;
  ReadFile : string -> string + list ascii
}.

(** The client that was constructed, by its constructor and the options
    handed to it.  (Constructing a client does not connect.) *)
Inductive Client {X : X509} : Type :=
| NewFailoverClient (MasterName : string) (SentinelAddrs : list string)
| NewClusterClient (Addrs : list string)
| NewClient (opt : redis_Options).

Inductive config_error : Type :=
| ErrMutuallyExclusive
    (* "options redis-use-sentinel and redis-use-cluster are mutually exclusive" *)
| ErrParseURL (err : string)                 (* "unable to parse redis url: %s" *)
| ErrLoadCA (path : string) (err : string)   (* "failed to load %q, %v" *)
| ErrConstructing (err : config_error).      (* "error constructing redis client: %v" *)

(** A construction returns a value, returns an error, or dereferences a
    nil pointer. *)
Inductive construction (A : Type) : Type :=
| Constructed (a : A)
| Refused (e : config_error)
| NilDereference.
Arguments Constructed {A} a.
Arguments Refused {A} e.
Arguments NilDereference {A}.

Section Construction.
Context {X : X509} {D : Dialer}.

(** [opt.TLSConfig.InsecureSkipVerify = true] *)
Definition set_InsecureSkipVerify (opt : redis_Options) : construction redis_Options :=
  match TLSConfig opt with
  | None => NilDereference
  | Some tls =>
      Constructed {| Addr := Addr opt; Password := Password opt; DB := DB opt;
                     TLSConfig := Some {| InsecureSkipVerify := true;
                                          RootCAs := RootCAs tls;
                                          ServerName := ServerName tls |} |}
  end.

(** [opt.TLSConfig.RootCAs = rootCAs] *)
Definition set_RootCAs (rootCAs : CertPool) (opt : redis_Options)
  : construction redis_Options :=
  match TLSConfig opt with
  | None => NilDereference
  | Some tls =>
      Constructed {| Addr := Addr opt; Password := Password opt; DB := DB opt;
                     TLSConfig := Some {| InsecureSkipVerify := InsecureSkipVerify tls;
                                          RootCAs := Some rootCAs;
                                          ServerName := ServerName tls |} |}
  end.

Definition newRedisCmdable (opts : RedisStoreOptions) : construction Client :=
  if UseSentinel opts && UseCluster opts then Refused ErrMutuallyExclusive
  else if UseSentinel opts then
    Constructed (NewFailoverClient (SentinelMasterName opts) (SentinelConnectionURLs opts))
  else if UseCluster opts then
    Constructed (NewClusterClient (ClusterConnectionURLs opts))
  else
    match redis_ParseURL (ConnectionURL opts) with
    | inl err => Refused (ErrParseURL err)
    | inr opt =>
        match (if InsecureSkipTLSVerify opts then set_InsecureSkipVerify opt
               else Constructed opt) with
        | Constructed opt =>
            if nonempty (CAPath opts) then
              let rootCAs := default NewCertPool SystemCertPool in
              match ReadFile (CAPath opts) with
              | inl err => Refused (ErrLoadCA (CAPath opts) err)
              | inr certs =>
                  (* Append our cert to the system pool *)
                  let rootCAs := (AppendCertsFromPEM rootCAs certs).1 in
                  match set_RootCAs rootCAs opt with
                  | Constructed opt => Constructed (NewClient opt)
                  | Refused e => Refused e
                  | NilDereference => NilDereference
                  end
              end
            else Constructed (NewClient opt)
        | Refused e => Refused e
        | NilDereference => NilDereference
        end
    end.

(** [NewRedisSessionStore] initialises a new instance of the
    [SessionStore] from the configuration given; the client comes beside
    it. *)
Definition NewRedisSessionStore (opts : SessionOptions)
  (cookieOpts : options.CookieOptions) : construction (SessionStore * Client) :=
  match newRedisCmdable (SessionRedis opts) with
  | Constructed client =>
      Constructed ({| CookieCipher := SessionCipher opts; CookieOptions := cookieOpts |},
                   client)
  | Refused err => Refused (ErrConstructing err)
  | NilDereference => NilDereference
  end.

End Construction.

(* ===================================================================== *)
(** * An instance of the environment *)
(* ===================================================================== *)

(** One block function, JSON text layer, cipher and cookie signer, used to
    run the store on concrete requests. *)

Module Sample.

(** A block function: the block, back to front, xored with the key. *)
Definition block : BlockCipher :=
  fun key b => zip_with xor_byte (rev (resize BlockSize "000"%char b))
                                 (resize BlockSize "000"%char key).

(** ** JSON text *)

Definition dquote : ascii := "034"%char.
Definition backslash : ascii := "092"%char.

Definition special (c : ascii) : bool := Ascii.eqb c dquote || Ascii.eqb c backslash.

(** A quotation mark and a backslash are written after a backslash. *)
Fixpoint escape (s : string) : string :=
  match s with
  | EmptyString => EmptyString
  | String c r =>
      if special c then String backslash (String c (escape r))
      else String c (escape r)
  end.

Definition quote (s : string) : string :=
  String dquote (escape s +:+ String dquote EmptyString).

Definition value_text (v : jvalue) : string :=
  match v with
  | JNull => "null"
  | JString s => quote s
  | JOther => "0"
  end.

Definition member_text (m : string * jvalue) : string :=
  quote m.1 +:+ ":" +:+ value_text m.2.

Fixpoint members_text (o : jobject) : string :=
  match o with
  | [] => EmptyString
  | m :: o' =>
      match o' with
      | [] => member_text m
      | _ :: _ => member_text m +:+ "," +:+ members_text o'
      end
  end.

Definition text (o : jobject) : string := "{" +:+ members_text o +:+ "}".

(** The reader, one character at a time.  The members read so far and the
    characters of the string being read are kept in reverse. *)
Inductive pstate : Type :=
| PStart
| PFirst
| PKey (acc : jobject)
| PInKey (acc : jobject) (k : list ascii) (esc : bool)
| PColon (acc : jobject) (k : string)
| PValue (acc : jobject) (k : string)
| PInStr (acc : jobject) (k : string) (v : list ascii) (esc : bool)
| PNull (acc : jobject) (k : string) (seen : nat)
| PAfter (acc : jobject)
| PDone (acc : jobject).

Definition step (st : pstate) (c : ascii) : option pstate :=
  match st with
  | PStart => if Ascii.eqb c "{" then Some PFirst else None
  | PFirst =>
      if Ascii.eqb c dquote then Some (PInKey [] [] false)
      else if Ascii.eqb c "}" then Some (PDone [])
      else None
  | PKey acc => if Ascii.eqb c dquote then Some (PInKey acc [] false) else None
  | PInKey acc k true => Some (PInKey acc (c :: k) false)
  | PInKey acc k false =>
      if Ascii.eqb c backslash then Some (PInKey acc k true)
      else if Ascii.eqb c dquote then Some (PColon acc (string_of (rev k)))
      else Some (PInKey acc (c :: k) false)
  | PColon acc k => if Ascii.eqb c ":" then Some (PValue acc k) else None
  | PValue acc k =>
      if Ascii.eqb c dquote then Some (PInStr acc k [] false)
      else if Ascii.eqb c "n" then Some (PNull acc k 1)
      else if Ascii.eqb c "0" then Some (PAfter ((k, JOther) :: acc))
      else None
  | PInStr acc k v true => Some (PInStr acc k (c :: v) false)
  | PInStr acc k v false =>
      if Ascii.eqb c backslash then Some (PInStr acc k v true)
      else if Ascii.eqb c dquote
           then Some (PAfter ((k, JString (string_of (rev v))) :: acc))
      else Some (PInStr acc k (c :: v) false)
  | PNull acc k 1 => if Ascii.eqb c "u" then Some (PNull acc k 2) else None
  | PNull acc k 2 => if Ascii.eqb c "l" then Some (PNull acc k 3) else None
  | PNull acc k 3 => if Ascii.eqb c "l" then Some (PAfter ((k, JNull) :: acc)) else None
  | PNull _ _ _ => None
  | PAfter acc =>
      if Ascii.eqb c "," then Some (PKey acc)
      else if Ascii.eqb c "}" then Some (PDone acc)
      else None
  | PDone _ => None
  end%char.

Fixpoint run (st : pstate) (s : string) : option pstate :=
  match s with
  | EmptyString => Some st
  | String c r =>
      match step st c with
      | Some st' => run st' r
      | None => None
      end
  end.

Definition parse (s : string) : option jobject :=
  match run PStart s with
  | Some (PDone acc) => Some (rev acc)
  | _ => None
  end.

(** Times are written in decimal and, as in Go, only for the years 0 to
    9999. *)
Definition year0 : Time := -31622400 * 1000000000.
Definition year10000 : Time := 315537897600 * 1000000000.

Definition decimal (z : Z) : string := NilEmpty.string_of_int (Z.to_int z).
Definition of_decimal (s : string) : option Z := Z.of_int <$> NilEmpty.int_of_string s.

Definition json : JSONText := {|
  json_text := text;
  json_parse := parse;
  time_text := fun t => if (year0 <=? t) && (t <? year10000) then Some (decimal t) else None;
  time_parse := of_decimal
|}.

(** ** A cipher: the nonce, then the plaintext in cipher feedback mode
    under the nonce, in base64. *)

Definition seal (key : list ascii) (p : string) (r : list ascii) : result string * list ascii :=
  if (length r <? BlockSize)%nat then (Failure ErrRandom, r)
  else
    let iv := take BlockSize r in
    let ct := xorKeyStream (aes := block) key iv [] BlockSize false (bytes_of p) in
    (Success (Base64.EncodeToString (iv ++ ct)), drop BlockSize r).

Definition unseal (key : list ascii) (s : string) : result string :=
  match Base64.DecodeString s with
  | None => Failure (ErrCipher "failed to decrypt cookie value")
  | Some encrypted =>
      if (length encrypted <? BlockSize)%nat
      then Failure (ErrCipher "encrypted cookie value should be at least 16 bytes")
      else
        let iv := take BlockSize encrypted in
        Success (string_of (xorKeyStream (aes := block) key iv [] BlockSize true
                                         (drop BlockSize encrypted)))
  end.

Definition cipher (key : list ascii) : Cipher :=
  {| Encrypt := seal key; Decrypt := unseal key |}.

(** ** A cookie signer: the value in base64, the time of signing in
    decimal, and a keyed checksum of both and the cookie name. *)

Definition checksum (seed key value timestamp : string) : string :=
  Hex.EncodeToString (rev (bytes_of (seed +:+ key +:+ value +:+ timestamp))).

Definition sign (seed key value : string) (now : Time) : string :=
  let encoded := Base64.EncodeToString (bytes_of value) in
  let ts := decimal now in
  encoded +:+ String "|" (ts +:+ String "|" (checksum seed key encoded ts)).

Definition validate (cookie : Cookie) (seed : string) (expiration : Duration) (now : Time)
  : option (string * Time) :=
  match Split (Value cookie) "|"%char with
  | [encoded; ts; sig] =>
      if String.eqb sig (checksum seed (Name cookie) encoded ts) then
        match of_decimal ts with
        | Some t =>
            if (now <? t) || (expiration <? now - t) then None
            else
              match Base64.DecodeString encoded with
              | Some raw => Some (string_of raw, t)
              | None => None
              end
        | None => None
        end
      else None
  | _ => None
  end.

Definition signer : Signer := {| SignedValue := sign; Validate := validate |}.

(** ** A store, a session and a world *)

Definition key : list ascii := bytes_of "0123456789abcdef".

Definition cookieOpts : options.CookieOptions :=
  {| options.Name := "_oauth2_proxy"; options.Secret := "secret";
     options.Expire := 168 * Hour |}.

Definition store : SessionStore :=
  {| CookieCipher := Some (cipher key); CookieOptions := cookieOpts |}.

(** The store of the tests' default options: no cipher. *)
Definition plain_store : SessionStore :=
  {| CookieCipher := None; CookieOptions := cookieOpts |}.

Definition noon : Time := 63700000000 * 1000000000.

Definition session : SessionState :=
  {| AccessToken := "AccessToken"; IDToken := "IDToken"; CreatedAt := None;
     ExpiresOn := Some (noon + Hour); RefreshToken := "RefreshToken";
     Email := "john.doe@example.com"; User := "john.doe"; PreferredUsername := "" |}.

Definition empty_redis : Redis := {| entries := ∅; fault := None |}.

Definition world : World :=
  {| clock := noon;
     entropy := bytes_of "abcdefghijklmnopqrstuvwxyzABCDEFGHIJKLMNOPQRSTUVWXYZ0123456789-_abcdefghijklmnopqrstuvwxyzABCDEFGHIJKLMNOPQRSTUVWXYZ0123456789-_abcdefghijklmnopqrstuvwxyzABCDEFGHIJKLMNOPQRSTUVWXYZ0123456789-_";
     redis := empty_redis;
     response := [] |}.

Definition request : Request := {| Cookies := [] |}.

(** A cookie of the store's name whose value was signed at [noon]. *)
Definition signed (value : string) : Cookie :=
  {| Name := "_oauth2_proxy";
     Value := sign "secret" "_oauth2_proxy" value noon;
     Expires := noon + 168 * Hour |}.

(** A session as it was serialized before its email was encrypted. *)
Definition legacy : string := text [("Email", JString "john.doe@example.com")].

End Sample.

(** ** More sessions, requests and states, and an environment for the
    construction of the client *)

Module Fixture.
Import Sample.

#[local] Existing Instance block.
#[local] Existing Instance json.
#[local] Existing Instance signer.

(** Times are printed as the count of nanoseconds. *)
Definition time_string : TimeString := decimal.

(** The sample session, created half a second after noon. *)
Definition stamped : SessionState := set_time FCreatedAt (Some (noon + 500000000)) session.

(** The same session with other tokens. *)
Definition renewed : SessionState :=
  set_string FAccessToken "AnotherAccessToken"
    (set_string FIDToken "AnotherIDToken"
       (set_string FRefreshToken "AnotherRefreshToken" stamped)).

Definition provider : ProviderData :=
  {| ClientID := ""; Scope := ""; Prompt := ""; ApprovalPrompt := ""; AcrValues := "" |}.

(** A bearer token without an email claim. *)
Definition bearer : oidc.IDToken :=
  {| oidc.Expiry := noon + Hour;
     oidc.Claims := Success {| oidc.Subject := "1234567890"; oidc.Email := "";
                               oidc.Verified := None;
                               oidc.PreferredUsername := "jdoe" |} |}.

(** The state after the sample session was saved, the cookie that [Save]
    wrote, and a request that carries it. *)
Definition saved : World := (Save store request session world).2.

Definition ticket_cookie : Cookie :=
  default {| Name := ""; Value := ""; Expires := 0 |} (last (response saved)).

Definition returning : Request := AddCookie request ticket_cookie.

(** The state after a second session was saved by another client. *)
Definition saved_twice : World :=
  (Save store request (set_string FEmail "jane.doe@example.com" zero_SessionState) saved).2.

(** A state whose cache is down. *)
Definition down : World :=
  set_redis {| entries := ∅; fault := Some (ErrRedis "connection refused") |} world.

(** The broken session of the store's tests. *)
Definition broken : Request :=
  AddCookie request (signed "BrokenSessionFromADifferentSessionImplementation").

(** Signed tickets with the ID [ab] whose secrets are 16 and 24 zero
    bytes. *)
Definition short_ticket : Cookie := signed "_oauth2_proxy-ab.AAAAAAAAAAAAAAAAAAAAAA".
Definition long_ticket : Cookie := signed "_oauth2_proxy-ab.AAAAAAAAAAAAAAAAAAAAAAAAAAAAAAAA".

(** Certificate pools as lists of PEM texts; a system pool of one
    certificate. *)
Definition x509 : X509 :=
  {| CertPool := list (list ascii);
     NewCertPool := [];
     SystemCertPool := Some [bytes_of "system root"];
     AppendCertsFromPEM := fun pool pem =>
       if HasPrefix (string_of pem) "-----BEGIN CERTIFICATE-----"
       then (pool ++ [pem], true) else (pool, false) |}.

(** URLs of the schemes [rediss] (with a TLS configuration) and [redis]
    (without one), and one certificate file. *)
Definition dialer : @Dialer x509 :=
  {| redis_ParseURL := fun url =>
       if HasPrefix url "rediss://" then
         inr {| Addr := TrimPrefix url "rediss://"; Password := ""; DB := 0;
                TLSConfig := Some {| InsecureSkipVerify := false; RootCAs := None;
                                     ServerName := TrimPrefix url "rediss://" |} |}
       else if HasPrefix url "redis://" then
         inr {| Addr := TrimPrefix url "redis://"; Password := ""; DB := 0;
                TLSConfig := None |}
       else inl "invalid redis URL scheme";
     ReadFile := fun path =>
       if String.eqb path "/etc/ssl/redis-ca.pem"
       then inr (bytes_of "-----BEGIN CERTIFICATE----- MIIB -----END CERTIFICATE-----")
       else inl "no such file or directory" |}.

Definition redis_options (url : string) (sentinel cluster : bool) (ca : string)
  (insecure : bool) : RedisStoreOptions :=
  {| ConnectionURL := url; UseSentinel := sentinel; SentinelMasterName := "mymaster";
     SentinelConnectionURLs := ["sentinel-1:26379"; "sentinel-2:26379"];
     UseCluster := cluster; ClusterConnectionURLs := ["cluster-1:6379"];
     CAPath := ca; InsecureSkipTLSVerify := insecure |}.

End Fixture.

(* ===================================================================== *)
(** * Properties of the library models *)
(* ===================================================================== *)

Lemma string_of_bytes_of s : string_of (bytes_of s) = s.
Proof. apply string_of_list_ascii_of_string. Qed.

Lemma bytes_of_string_of b : bytes_of (string_of b) = b.
Proof. apply list_ascii_of_string_of_list_ascii. Qed.

Lemma sapp_cons c (s t : string) : String c s +:+ t = String c (s +:+ t).
Proof. reflexivity. Qed.

Lemma sapp_empty (t : string) : "" +:+ t = t.
Proof. reflexivity. Qed.

Lemma sapp_assoc (s t u : string) : (s +:+ t) +:+ u = s +:+ t +:+ u.
Proof. induction s as [|c s IH]; [done|]. by rewrite !sapp_cons, IH. Qed.

Lemma string_all_string_of P b : string_all P (string_of b) = forallb P b.
Proof. induction b as [|c b IH]; simpl; [done | by rewrite IH]. Qed.

Lemma xor_byte_involutive k x : xor_byte (xor_byte x k) k = x.
Proof.
  destruct x as [x0 x1 x2 x3 x4 x5 x6 x7], k as [k0 k1 k2 k3 k4 k5 k6 k7]; simpl.
  by rewrite !xorb_assoc, !xorb_nilpotent, !xorb_false_r.
Qed.

(** A list, three elements at a time. *)
Lemma list_ind3 {A} (P : list A -> Prop) :
  P [] -> (forall a, P [a]) -> (forall a b, P [a; b]) ->
  (forall a b c r, P r -> P (a :: b :: c :: r)) ->
  forall l, P l.
Proof.
  intros H0 H1 H2 H3.
  fix IH 1. intros [|a [|b [|c r]]]; [exact H0 | apply H1 | apply H2 | apply H3, IH].
Qed.

Module HexFacts.
Import Hex.

Lemma fromHexChar_digit n : fromHexChar (digit n) = Some n.
Proof. destruct n as [[[[] []] []] []]; reflexivity. Qed.

Lemma digit_not_dot n : Ascii.eqb (digit n) "."%char = false.
Proof. destruct n as [[[[] []] []] []]; reflexivity. Qed.

Lemma hex_decode_encode b : decode (encode b) = Some b.
Proof.
  induction b as [|[b0 b1 b2 b3 b4 b5 b6 b7] r IH]; [done|].
  cbn [encode decode]. rewrite !fromHexChar_digit, IH. reflexivity.
Qed.

Lemma hex_DecodeString_EncodeToString b : DecodeString (EncodeToString b) = Some b.
Proof.
  unfold DecodeString, EncodeToString. rewrite bytes_of_string_of. apply hex_decode_encode.
Qed.

Lemma hex_encode_no_dot b : forallb (fun c => negb (Ascii.eqb c "."%char)) (encode b) = true.
Proof.
  induction b as [|[b0 b1 b2 b3 b4 b5 b6 b7] r IH]; [done|].
  cbn [encode forallb]. by rewrite !digit_not_dot, IH.
Qed.

Lemma hex_EncodeToString_no_dot b : string_all (fun c => negb (Ascii.eqb c "."%char)) (EncodeToString b) = true.
Proof. unfold EncodeToString. rewrite string_all_string_of. apply hex_encode_no_dot. Qed.

End HexFacts.

Module Base64Facts.
Import Base64.

Lemma sextet_of_char_of s : sextet_of (char_of s) = Some s.
Proof. destruct s as [[[[[[] []] []] []] []] []]; vm_compute; reflexivity. Qed.

Lemma char_of_not_dot s : Ascii.eqb (char_of s) "."%char = false.
Proof. destruct s as [[[[[[] []] []] []] []] []]; vm_compute; reflexivity. Qed.

Lemma char_of_not_newline s : is_newline (char_of s) = false.
Proof. destruct s as [[[[[[] []] []] []] []] []]; vm_compute; reflexivity. Qed.

Lemma b64_decode_encode b : decode (encode b) = Some b.
Proof.
  induction b as [|a|a b|a b c r IH] using list_ind3.
  - reflexivity.
  - destruct a. cbn [encode decode]. by rewrite !sextet_of_char_of.
  - destruct a, b. cbn [encode decode]. by rewrite !sextet_of_char_of.
  - destruct a, b, c. cbn [encode decode]. by rewrite !sextet_of_char_of, IH.
Qed.

Lemma b64_encode_chars (P : ascii -> bool) :
  (forall s, P (char_of s) = true) -> forall b, forallb P (encode b) = true.
Proof.
  intros HP b. induction b as [|a|a b|a b c r IH] using list_ind3.
  - reflexivity.
  - destruct a. cbn [encode forallb]. by rewrite !HP.
  - destruct a, b. cbn [encode forallb]. by rewrite !HP.
  - destruct a, b, c. cbn [encode forallb]. by rewrite !HP, IH.
Qed.

Lemma filter_forallb {A} (P : A -> bool) l : forallb P l = true -> List.filter P l = l.
Proof.
  induction l as [|x l IH]; simpl; [done|].
  intros [Hx Hl]%andb_prop. rewrite Hx. by rewrite IH.
Qed.

Lemma b64_DecodeString_EncodeToString b : DecodeString (EncodeToString b) = Some b.
Proof.
  unfold DecodeString, EncodeToString. rewrite bytes_of_string_of.
  rewrite filter_forallb; [apply b64_decode_encode|].
  apply b64_encode_chars. intros s. by rewrite char_of_not_newline.
Qed.

Lemma b64_EncodeToString_no_dot b :
  string_all (fun c => negb (Ascii.eqb c "."%char)) (EncodeToString b) = true.
Proof.
  unfold EncodeToString. rewrite string_all_string_of.
  apply b64_encode_chars. intros s. by rewrite char_of_not_dot.
Qed.

End Base64Facts.

(** ** Prefixes and splitting *)

Lemma HasPrefix_app p r : HasPrefix (p +:+ r) p = true.
Proof.
  induction p as [|c p IH]; [done|].
  rewrite sapp_cons. simpl. by rewrite Ascii.eqb_refl, IH.
Qed.

Lemma HasPrefix_inv s p : HasPrefix s p = true -> exists r, s = p +:+ r.
Proof.
  revert s. induction p as [|c p IH]; intros s H.
  - by exists s.
  - destruct s as [|d s]; simpl in H; [done|].
    apply andb_prop in H as [Hc Hp]. apply Ascii.eqb_eq in Hc as ->.
    destruct (IH _ Hp) as [r ->]. by exists r.
Qed.

Lemma string_drop_app p r : string_drop (String.length p) (p +:+ r) = r.
Proof. induction p as [|c p IH]; [done|]. rewrite sapp_cons. simpl. done. Qed.

Lemma TrimPrefix_app p r : TrimPrefix (p +:+ r) p = r.
Proof. unfold TrimPrefix. by rewrite HasPrefix_app, string_drop_app. Qed.

Lemma Split_nonempty s sep : Split s sep <> [].
Proof.
  destruct s as [|c r]; simpl; [done|].
  destruct (Ascii.eqb c sep); [done|]. by destruct (Split r sep).
Qed.

Lemma Split_free s sep : free_of sep s = true -> Split s sep = [s].
Proof.
  unfold free_of. induction s as [|c r IH]; simpl; [done|].
  intros [Hc Hr]%andb_prop. apply negb_true_iff in Hc. rewrite Hc, (IH Hr). done.
Qed.

Lemma Split_app a b sep :
  free_of sep a = true -> Split (a +:+ String sep b) sep = a :: Split b sep.
Proof.
  unfold free_of. induction a as [|c r IH].
  - intros _. rewrite sapp_empty. simpl. by rewrite Ascii.eqb_refl.
  - rewrite sapp_cons. simpl.
    intros [Hc Hr]%andb_prop. apply negb_true_iff in Hc. rewrite Hc, (IH Hr). done.
Qed.

Lemma Split_one s sep p : Split s sep = [p] -> s = p /\ free_of sep p = true.
Proof.
  unfold free_of. revert p. induction s as [|c r IH]; simpl; intros p H.
  - by inversion H.
  - destruct (Ascii.eqb c sep) eqn:Hc.
    + inversion H as [[Hp Hr]]. by apply Split_nonempty in Hr.
    + destruct (Split r sep) as [|q qs] eqn:Hr; [by apply Split_nonempty in Hr|].
      inversion H; subst. destruct (IH q eq_refl) as [-> Hq].
      simpl. by rewrite Hc, Hq.
Qed.

Lemma Split_two s sep a b :
  Split s sep = [a; b] ->
  s = a +:+ String sep b /\ free_of sep a = true /\ free_of sep b = true.
Proof.
  revert a. induction s as [|c r IH]; simpl; intros a H; [done|].
  destruct (Ascii.eqb c sep) eqn:Hc.
  - inversion H as [[Ha Hr]]. apply Ascii.eqb_eq in Hc as ->.
    apply Split_one in Hr as [-> Hb]. done.
  - destruct (Split r sep) as [|q qs] eqn:Hr; [done|].
    inversion H; subst. destruct (IH q eq_refl) as (-> & Hq & Hb).
    repeat split; [|done]. unfold free_of in *. simpl. by rewrite Hc, Hq.
Qed.

(** ** Cipher feedback mode: decryption inverts encryption *)

Section CFBFacts.
Context {aes : BlockCipher}.

Lemma xorKeyStream_inverse block src : forall next out outUsed,
  xorKeyStream block next out outUsed true
    (xorKeyStream block next out outUsed false src) = src.
Proof.
  induction src as [|x src IH]; intros next out outUsed; [done|].
  cbn [xorKeyStream]. rewrite xor_byte_involutive. f_equal. apply IH.
Qed.

Lemma xorKeyStream_length block src : forall next out outUsed decrypt,
  length (xorKeyStream block next out outUsed decrypt src) = length src.
Proof.
  induction src as [|x src IH]; intros; [done|]. cbn [xorKeyStream length]. by rewrite IH.
Qed.

(** For every block function, key and initialization vector: what the
    decrypter makes of the encrypter's output is the input. *)
Lemma CFB_decrypt_encrypt block iv enc dec src :
  NewCFBEncrypter block iv = Ok enc ->
  NewCFBDecrypter block iv = Ok dec ->
  XORKeyStream dec (XORKeyStream enc src) = src.
Proof.
  unfold NewCFBEncrypter, NewCFBDecrypter, newCFB.
  destruct (length iv =? BlockSize)%nat; [|done].
  intros [= <-] [= <-]. unfold XORKeyStream. simpl. apply xorKeyStream_inverse.
Qed.

End CFBFacts.

(** ** Tickets *)

Lemma decodeTicket_encodeTicket ticket prefix :
  is_Some (Hex.DecodeString (TicketID ticket)) ->
  free_of "." (TicketID ticket) = true ->
  decodeTicket prefix (encodeTicket ticket prefix) = Ok ticket.
Proof.
  intros [raw Hraw] Hfree. unfold decodeTicket, encodeTicket, asHandle.
  assert (Hassoc : (prefix +:+ "-" +:+ TicketID ticket) +:+ "." +:+
                     Base64.EncodeToString (Secret ticket)
                   = (prefix +:+ "-") +:+ TicketID ticket +:+
                     String "." (Base64.EncodeToString (Secret ticket))).
  { by rewrite !sapp_assoc. }
  rewrite Hassoc, HasPrefix_app, TrimPrefix_app. simpl negb. cbv iota.
  rewrite Split_app by done.
  rewrite Split_free by apply Base64Facts.b64_EncodeToString_no_dot.
  rewrite Hraw, Base64Facts.b64_DecodeString_EncodeToString.
  by destruct ticket.
Qed.

(** What a well-formed ticket string is: the cookie name and a dash, a
    hexadecimal ticket ID, a dot, and a base64 secret. *)
Lemma decodeTicket_Ok cookieName ticketString ticket :
  decodeTicket cookieName ticketString = Ok ticket <->
  exists secretBase64,
    ticketString = (cookieName +:+ "-") +:+ TicketID ticket +:+ String "." secretBase64 /\
    free_of "." (TicketID ticket) = true /\
    free_of "." secretBase64 = true /\
    is_Some (Hex.DecodeString (TicketID ticket)) /\
    Base64.DecodeString secretBase64 = Some (Secret ticket).
Proof.
  unfold decodeTicket. split.
  - destruct (HasPrefix ticketString (cookieName +:+ "-")) eqn:Hp; [|done]. simpl.
    apply HasPrefix_inv in Hp as [r ->]. rewrite TrimPrefix_app.
    destruct (Split r ".") as [|a [|b [|? ?]]] eqn:Hs; try done.
    apply Split_two in Hs as (-> & Ha & Hb).
    destruct (Hex.DecodeString a) eqn:Hhex; [|done].
    destruct (Base64.DecodeString b) eqn:Hb64; [|done].
    intros [= <-]. exists b. simpl. rewrite Hhex. eauto 10.
  - intros (b & -> & Ha & Hb & [raw Hhex] & Hb64).
    rewrite HasPrefix_app, TrimPrefix_app. simpl.
    rewrite Split_app, Split_free by done.
    rewrite Hhex, Hb64. by destruct ticket.
Qed.

(** ** Handler steps *)

Lemma bind_Ok {A B} (m : M A) (k : A -> M B) w b w' :
  bind m k w = (Ok b, w') ->
  exists a w1, m w = (Ok a, w1) /\ k a w1 = (Ok b, w').
Proof.
  unfold bind. destruct (m w) as [[a|e|msg] w1]; [eauto | done | done].
Qed.

Lemma wrapping_Ok {A} prefix (m : M A) w a w' :
  wrapping prefix m w = (Ok a, w') -> m w = (Ok a, w').
Proof. unfold wrapping. by destruct (m w) as [[?|?|?] ?]. Qed.

Lemma lift_Ok {A} (o : outcome A) w a w' : lift o w = (Ok a, w') -> o = Ok a /\ w' = w.
Proof. unfold lift. by intros [= -> ->]. Qed.

(** ** [json.Unmarshal] reads back what [json.Marshal] wrote *)

Lemma field_of_key_name f : field_of_key (field_name f) = Some f.
Proof. destruct f; reflexivity. Qed.

Section JSONFacts.
Context {J : JSONText} {JL : JSONTextLaws J}.

Lemma fill_string_member f s o s0 saved :
  is_time_field f = false ->
  fill (string_member f s ++ o) s0 saved
  = fill o (if nonempty (get_string f s) then set_string f (get_string f s) s0 else s0) saved.
Proof.
  intros Hf. unfold string_member. destruct (nonempty (get_string f s)); [|done].
  cbn [app fill]. rewrite field_of_key_name. unfold store. by rewrite Hf.
Qed.

Lemma fill_time_member f t m o s0 saved :
  is_time_field f = true -> time_member f t = Ok m ->
  fill (m ++ o) s0 saved
  = fill o (match t with Some _ => set_time f t s0 | None => s0 end) saved.
Proof.
  intros Hf. unfold time_member. destruct t as [t|]; [|by intros [= <-]].
  destruct (time_text t) as [v|] eqn:Hv; [|done]. intros [= <-].
  cbn [app fill]. rewrite field_of_key_name. unfold store. rewrite Hf.
  by rewrite (time_parse_text _ _ Hv).
Qed.

Lemma time_member_marshalled f t m : time_member f t = Ok m -> marshalled m = true.
Proof.
  unfold time_member. destruct t as [t|]; [|by intros [= <-]].
  destruct (time_text t); [|done]. by intros [= <-].
Qed.

Lemma string_member_marshalled f s : marshalled (string_member f s) = true.
Proof. unfold string_member. by destruct (nonempty (get_string f s)). Qed.

Lemma marshalled_app o1 o2 : marshalled (o1 ++ o2) = marshalled o1 && marshalled o2.
Proof. apply forallb_app. Qed.

Lemma toJSON_inv s o :
  toJSON s = Ok o ->
  exists created expires,
    time_member FCreatedAt (CreatedAt s) = Ok created /\
    time_member FExpiresOn (ExpiresOn s) = Ok expires /\
    o = string_member FAccessToken s ++ string_member FIDToken s ++
        created ++ expires ++
        string_member FRefreshToken s ++ string_member FEmail s ++
        string_member FUser s ++ string_member FPreferredUsername s.
Proof.
  unfold toJSON.
  destruct (time_member FCreatedAt (CreatedAt s)) as [created| |]; [|done..].
  destruct (time_member FExpiresOn (ExpiresOn s)) as [expires| |]; [|done..].
  intros [= <-]. eauto.
Qed.

Lemma toJSON_marshalled s o : toJSON s = Ok o -> marshalled o = true.
Proof.
  intros (created & expires & Hc & He & ->)%toJSON_inv.
  rewrite !marshalled_app, !string_member_marshalled.
  by rewrite (time_member_marshalled _ _ _ Hc), (time_member_marshalled _ _ _ He).
Qed.

Lemma fill_toJSON s o : toJSON s = Ok o -> fill o zero_SessionState None = Ok s.
Proof.
  intros (created & expires & Hc & He & ->)%toJSON_inv.
  rewrite <- (app_nil_r (string_member FPreferredUsername s)).
  rewrite !fill_string_member by done.
  rewrite (fill_time_member FCreatedAt _ _ _ _ _ eq_refl Hc).
  rewrite (fill_time_member FExpiresOn _ _ _ _ _ eq_refl He).
  rewrite !fill_string_member by done.
  destruct s as [at_ id ca ex rt em us pu].
  destruct at_, id, ca, ex, rt, em, us, pu; reflexivity.
Qed.

Lemma Unmarshal_Marshal s v : json_Marshal s = Ok v -> json_Unmarshal v = Ok s.
Proof.
  unfold json_Marshal, json_Unmarshal.
  destruct (toJSON s) as [o| |] eqn:Ho; [|done..]. intros [= <-].
  rewrite (json_parse_text o (toJSON_marshalled _ _ Ho)). by apply fill_toJSON.
Qed.

End JSONFacts.

(* ===================================================================== *)
(** * The session state codec *)
(* ===================================================================== *)

Lemma nonempty_false s : nonempty s = false <-> s = "".
Proof. by destruct s. Qed.

Lemma nonempty_true s : nonempty s = true <-> s <> "".
Proof. by destruct s. Qed.

Lemma set_string_get f s : set_string f (get_string f s) s = s.
Proof. by destruct s, f. Qed.

Lemma encrypt_field_inv c `{!CipherLaws c} f ss w ss' w' :
  is_time_field f = false ->
  encrypt_field c f ss w = (Ok ss', w') ->
  exists ct, ss' = set_string f ct ss /\ sealed c (get_string f ss) ct.
Proof.
  intros Hf. unfold encrypt_field.
  destruct (nonempty (get_string f ss)) eqn:Hne.
  - intros (ct & w1 & Henc & [= <- <-])%bind_Ok. exists ct. split; [done|].
    unfold encrypt in Henc.
    destruct (Encrypt c (get_string f ss) (entropy w)) as [[ct'|e] r'] eqn:HE; [|done].
    injection Henc as -> _. right. split; [by apply nonempty_true|]. split.
    + eapply Encrypt_nonempty, HE.
    + eapply Decrypt_Encrypt, HE.
  - intros [= <- <-]. apply nonempty_false in Hne. exists "". split.
    + by rewrite <- Hne, set_string_get.
    + by left.
Qed.

Lemma decrypt_soft_sealed c f ss p :
  sealed c p (get_string f ss) -> decrypt_soft c f ss = set_string f p ss.
Proof.
  unfold decrypt_soft. intros [[-> Hct]|(_ & Hct & Hdec)].
  - rewrite Hct. simpl. by rewrite <- Hct, set_string_get.
  - apply nonempty_true in Hct. by rewrite Hct, Hdec.
Qed.

Lemma decrypt_hard_sealed c f ss p :
  sealed c p (get_string f ss) -> decrypt_hard c f ss = Ok (set_string f p ss).
Proof.
  unfold decrypt_hard. intros [[-> Hct]|(_ & Hct & Hdec)].
  - rewrite Hct. simpl. by rewrite <- Hct, set_string_get.
  - apply nonempty_true in Hct. by rewrite Hct, Hdec.
Qed.

Section CodecFacts.
Context {J : JSONText} {JL : JSONTextLaws J}.

(** What [EncodeSessionState] marshals under a cipher: the session with
    every non-empty string field replaced by a ciphertext of it. *)
Lemma Encode_cipher_inv c `{!CipherLaws c} s w v w' :
  EncodeSessionState s (Some c) w = (Ok v, w') ->
  exists ss,
    json_Marshal ss = Ok v /\
    CreatedAt ss = CreatedAt s /\ ExpiresOn ss = ExpiresOn s /\
    forall f, is_time_field f = false -> sealed c (get_string f s) (get_string f ss).
Proof.
  unfold EncodeSessionState.
  intros (ss6 & w6 & Hchain & [Hv _]%lift_Ok)%bind_Ok.
  apply bind_Ok in Hchain as (s1 & w1 & (c1 & -> & H1)%encrypt_field_inv & Hchain); [|done..].
  apply bind_Ok in Hchain as (s2 & w2 & (c2 & -> & H2)%encrypt_field_inv & Hchain); [|done..].
  apply bind_Ok in Hchain as (s3 & w3 & (c3 & -> & H3)%encrypt_field_inv & Hchain); [|done..].
  apply bind_Ok in Hchain as (s4 & w4 & (c4 & -> & H4)%encrypt_field_inv & Hchain); [|done..].
  apply bind_Ok in Hchain as (s5 & w5 & (c5 & -> & H5)%encrypt_field_inv & Hchain); [|done..].
  apply encrypt_field_inv in Hchain as (c6 & -> & H6); [|done..].
  eexists. split; [exact Hv|]. cbn in *.
  split; [done|]. split; [done|]. by intros [] Hf.
Qed.

End CodecFacts.

(** [EncodeSessionState] under a cipher does not panic, and fails only
    with an error of the cipher's [Encrypt] or because a timestamp cannot
    be marshalled. *)
Lemma fails_with_bind {A B} Q (m : M A) (k : A -> M B) :
  fails_with Q m -> (forall a, fails_with Q (k a)) -> fails_with Q (bind m k).
Proof.
  intros Hm Hk w. unfold bind. specialize (Hm w).
  destruct (m w) as [[a|e|msg] w1]; [apply Hk | exact Hm | exact Hm].
Qed.

Lemma encrypt_field_fails c f ss :
  fails_with (fun e => exists p r r', Encrypt c p r = (Failure e, r')) (encrypt_field c f ss).
Proof.
  unfold encrypt_field. destruct (nonempty (get_string f ss)); [|by intros w].
  apply fails_with_bind; [|by intros ct w].
  intros w. unfold encrypt.
  destruct (Encrypt c (get_string f ss) (entropy w)) as [[ct|e] r'] eqn:HE; cbn; eauto.
Qed.

Lemma Encode_fails_only {J : JSONText} c s :
  fails_with (fun e => e = ErrTimeFormat \/ exists p r r', Encrypt c p r = (Failure e, r'))
             (EncodeSessionState s (Some c)).
Proof.
  assert (Hfield : forall f ss,
             fails_with (fun e => e = ErrTimeFormat \/
                                  exists p r r', Encrypt c p r = (Failure e, r'))
                        (encrypt_field c f ss)).
  { intros f ss w. pose proof (encrypt_field_fails c f ss w) as H.
    destruct (encrypt_field c f ss w).1; eauto. }
  unfold EncodeSessionState. apply fails_with_bind.
  - do 5 (apply fails_with_bind; [apply Hfield|]; intros ?). apply Hfield.
  - intros ss w. unfold lift, json_Marshal, toJSON, time_member. cbn.
    destruct (CreatedAt ss) as [t|]; [destruct (time_text t)|];
      (destruct (ExpiresOn ss) as [t'|]; [destruct (time_text t')|]); cbn; eauto.
Qed.

Section Codec.
Context {J : JSONText} {JL : JSONTextLaws J}.

Lemma Decode_sealed c s ss v :
  json_Unmarshal v = Ok ss ->
  CreatedAt ss = CreatedAt s -> ExpiresOn ss = ExpiresOn s ->
  (forall f, is_time_field f = false -> sealed c (get_string f s) (get_string f ss)) ->
  DecodeSessionState v (Some c) = Ok (default_user s).
Proof.
  intros Hv Hca Hex H. unfold DecodeSessionState. rewrite Hv.
  rewrite (decrypt_soft_sealed c FEmail ss (Email s)) by (by apply (H FEmail)).
  rewrite (decrypt_soft_sealed c FUser _ (User s)) by (by apply (H FUser)).
  cbn [mbind outcome_bind obind].
  rewrite (decrypt_hard_sealed c FPreferredUsername _ (PreferredUsername s))
    by (by apply (H FPreferredUsername)).
  cbn [mbind outcome_bind obind].
  rewrite (decrypt_hard_sealed c FAccessToken _ (AccessToken s))
    by (by apply (H FAccessToken)).
  cbn [mbind outcome_bind obind].
  rewrite (decrypt_hard_sealed c FIDToken _ (IDToken s)) by (by apply (H FIDToken)).
  cbn [mbind outcome_bind obind].
  rewrite (decrypt_hard_sealed c FRefreshToken _ (RefreshToken s))
    by (by apply (H FRefreshToken)).
  cbn [mbind outcome_bind obind].
  destruct s, ss. cbn in *. by subst.
Qed.

Lemma roundtrip_cipher (c : Cipher) (s : SessionState) (w w' : World) (v : string) :
  CipherLaws c ->
  EncodeSessionState s (Some c) w = (Ok v, w') ->
  DecodeSessionState v (Some c) = Ok (default_user s).
Proof.
  intros CL (ss & Hv & Hca & Hex & Hsealed)%Encode_cipher_inv; [|done].
  apply Unmarshal_Marshal in Hv.
  apply (Decode_sealed c s ss v Hv Hca Hex Hsealed).
Qed.

Lemma default_user_fields s :
  default_user s
  = {| AccessToken := AccessToken s; IDToken := IDToken s;
       CreatedAt := CreatedAt s; ExpiresOn := ExpiresOn s;
       RefreshToken := RefreshToken s; Email := Email s;
       User := if nonempty (User s) then User s else Email s;
       PreferredUsername := PreferredUsername s |}.
Proof. unfold default_user. destruct s as [? ? ? ? ? ? us ?]; cbn. by destruct us. Qed.

(** C1.  For every session state [s] and every cipher [c]: decoding, under
    [c], the string that [EncodeSessionState s c] returned succeeds and
    gives every field of [s] back, except that an empty [User] comes back
    as [Email]. *)
Theorem Decode_Encode_cipher (c : Cipher) (s : SessionState) (w w' : World) (v : string) :
  CipherLaws c ->
  EncodeSessionState s (Some c) w = (Ok v, w') ->
  DecodeSessionState v (Some c)
  = Ok {| AccessToken := AccessToken s; IDToken := IDToken s;
          CreatedAt := CreatedAt s; ExpiresOn := ExpiresOn s;
          RefreshToken := RefreshToken s; Email := Email s;
          User := if nonempty (User s) then User s else Email s;
          PreferredUsername := PreferredUsername s |}.
Proof.
  intros CL Henc. rewrite (roundtrip_cipher c s w w' v CL Henc).
  by rewrite default_user_fields.
Qed.

End Codec.

(** ** Decryption failures *)

Lemma hard_chain_Ok c ss :
  (forall f, f ∈ hard_fields -> decrypts c (get_string f ss)) ->
  exists s',
    (ss ← decrypt_hard c FPreferredUsername ss;
     ss ← decrypt_hard c FAccessToken ss;
     ss ← decrypt_hard c FIDToken ss;
     decrypt_hard c FRefreshToken ss) = Ok s' /\
    Email s' = Email ss /\ User s' = User ss.
Proof.
  intros H.
  assert (Hpu := H FPreferredUsername ltac:(unfold hard_fields; by repeat constructor)).
  assert (Hat := H FAccessToken ltac:(unfold hard_fields; by repeat constructor)).
  assert (Hid := H FIDToken ltac:(unfold hard_fields; by repeat constructor)).
  assert (Hrt := H FRefreshToken ltac:(unfold hard_fields; by repeat constructor)).
  clear H. destruct ss as [at_ id ca ex rt em us pu]. unfold decrypts in *. cbn in *.
  unfold decrypt_hard. cbn.
  destruct Hpu as [->|[p1 Hpu]], Hat as [->|[p2 Hat]],
           Hid as [->|[p3 Hid]], Hrt as [->|[p4 Hrt]]; cbn;
    repeat match goal with
           | |- context [nonempty ?x] => destruct (nonempty x); cbn
           | H : Decrypt c ?x = _ |- context [Decrypt c ?x] => rewrite H; cbn
           end; eauto.
Qed.

(** One step of the chain on the field holding [x]: either the field is
    empty, or it decrypts, or the chain ends with its error. *)
Ltac hard_step x f :=
  destruct (nonempty x) eqn:?; cbn;
  [ destruct (Decrypt _ x) eqn:?; cbn;
    [ | solve [ eexists f, _; cbn; split; [unfold hard_fields; by repeat constructor|];
                split; [by apply nonempty_true|]; split; [eassumption | reflexivity] ] ]
  | ].

Lemma hard_chain_Err c ss f e :
  f ∈ hard_fields -> get_string f ss <> "" ->
  Decrypt c (get_string f ss) = Failure e ->
  exists f' e',
    f' ∈ hard_fields /\ get_string f' ss <> "" /\
    Decrypt c (get_string f' ss) = Failure e' /\
    (ss ← decrypt_hard c FPreferredUsername ss;
     ss ← decrypt_hard c FAccessToken ss;
     ss ← decrypt_hard c FIDToken ss;
     decrypt_hard c FRefreshToken ss) = Err e'.
Proof.
  intros Hf Hne Hfail. apply nonempty_true in Hne.
  destruct ss as [at_ id ca ex rt em us pu]. unfold decrypt_hard. cbn in *.
  hard_step pu FPreferredUsername.
  all: hard_step at_ FAccessToken.
  all: hard_step id FIDToken.
  all: hard_step rt FRefreshToken.
  all: exfalso; unfold hard_fields in Hf; rewrite !elem_of_cons in Hf.
  all: destruct Hf as [->|[->|[->|[->|Hf]]]]; cbn in *;
    [congruence..|by apply elem_of_nil in Hf].
Qed.

Lemma decrypt_soft_other c g f ss :
  f <> g -> is_time_field g = false ->
  get_string f (decrypt_soft c g ss) = get_string f ss.
Proof.
  intros Hfg Hg. unfold decrypt_soft.
  destruct (nonempty (get_string g ss)); [|done].
  destruct (Decrypt c (get_string g ss)); [|done].
  by destruct ss, f, g.
Qed.

Lemma decrypt_soft_same c f ss :
  is_time_field f = false ->
  get_string f (decrypt_soft c f ss) = soft_value c (get_string f ss).
Proof.
  intros Hf. unfold decrypt_soft, soft_value.
  destruct (nonempty (get_string f ss)); [|done].
  destruct (Decrypt c (get_string f ss)); [|done].
  by destruct ss, f.
Qed.

Lemma hard_not_soft f : f ∈ hard_fields -> f <> FEmail /\ f <> FUser.
Proof.
  unfold hard_fields. rewrite !elem_of_cons, elem_of_nil.
  intros [->|[->|[->|[->|[]]]]]; done.
Qed.

Section Failures.
Context {J : JSONText}.

(** C2.  For every serialized session [v] that unmarshals, to [raw], and
    every cipher: a decryption failure of a non-empty preferred username,
    access token, ID token or refresh token makes [DecodeSessionState]
    return a decryption error; when these four decrypt, it succeeds
    whatever the email and the user do, and an email or user that fails to
    decrypt keeps its raw value. *)
Theorem Decode_decryption_failure (c : Cipher) (v : string) (raw : SessionState) :
  json_Unmarshal v = Ok raw ->
  (forall f e,
      f ∈ hard_fields -> get_string f raw <> "" ->
      Decrypt c (get_string f raw) = Failure e ->
      exists f' e',
        f' ∈ hard_fields /\ get_string f' raw <> "" /\
        Decrypt c (get_string f' raw) = Failure e' /\
        DecodeSessionState v (Some c) = Err e') /\
  ((forall f, f ∈ hard_fields -> decrypts c (get_string f raw)) ->
   exists s,
     DecodeSessionState v (Some c) = Ok s /\
     Email s = soft_value c (Email raw) /\
     User s = (if nonempty (soft_value c (User raw))
               then soft_value c (User raw) else soft_value c (Email raw)) /\
     (forall e, Decrypt c (Email raw) = Failure e -> Email s = Email raw) /\
     (forall e, User raw <> "" -> Decrypt c (User raw) = Failure e -> User s = User raw)).
Proof.
  intros Hv. unfold DecodeSessionState. rewrite Hv.
  set (ss := decrypt_soft c FUser (decrypt_soft c FEmail raw)).
  assert (Hsame : forall f, f ∈ hard_fields -> get_string f ss = get_string f raw).
  { intros f [HfE HfU]%hard_not_soft. unfold ss. by rewrite !decrypt_soft_other. }
  assert (HE : Email ss = soft_value c (Email raw)).
  { unfold ss. change (Email ?x) with (get_string FEmail x).
    by rewrite decrypt_soft_other, decrypt_soft_same. }
  assert (HU : User ss = soft_value c (User raw)).
  { unfold ss. change (User ?x) with (get_string FUser x).
    by rewrite decrypt_soft_same, decrypt_soft_other. }
  split.
  - intros f e Hf Hne Hfail. rewrite <- (Hsame f Hf) in Hne, Hfail.
    destruct (hard_chain_Err c ss f e Hf Hne Hfail) as (f' & e' & Hf' & Hne' & Hfail' & Hchain).
    exists f', e'. rewrite <- (Hsame f' Hf'). repeat split; [done..|].
    cbn [mbind outcome_bind obind] in *. by rewrite Hchain.
  - intros Hdec.
    destruct (hard_chain_Ok c ss) as (s' & Hchain & HE' & HU').
    { intros f Hf. rewrite (Hsame f Hf). by apply Hdec. }
    cbn [mbind outcome_bind obind] in *. rewrite Hchain. cbn [obind].
    eexists. split; [done|].
    assert (Hemail : Email (default_user s') = soft_value c (Email raw)).
    { unfold default_user. destruct (nonempty (User s')); [congruence|].
      destruct s'; cbn in *. congruence. }
    assert (Huser : User (default_user s')
                    = if nonempty (soft_value c (User raw))
                      then soft_value c (User raw) else soft_value c (Email raw)).
    { unfold default_user. rewrite <- HU, <- HE, <- HU', <- HE'.
      destruct (nonempty (User s')) eqn:Hn; [done|]. by destruct s'. }
    repeat split; [done..| |].
    + intros e He. rewrite Hemail. unfold soft_value. rewrite He.
      by destruct (nonempty (Email raw)).
    + intros e Hne He. rewrite Huser. apply nonempty_true in Hne.
      unfold soft_value at 1 2. by rewrite Hne, He, Hne.
Qed.

End Failures.

(** ** Which members are written *)

Section Members.
Context {J : JSONText} {JL : JSONTextLaws J}.

Lemma string_member_keys f s k :
  k ∈ (string_member f s).*1 -> k = field_name f /\ get_string f s <> "".
Proof.
  unfold string_member. destruct (nonempty (get_string f s)) eqn:Hne; cbn.
  - intros ->%list_elem_of_singleton. by apply nonempty_true in Hne.
  - by intros ?%elem_of_nil.
Qed.

Lemma time_member_keys f t m k :
  time_member f t = Ok m -> k ∈ m.*1 -> k = field_name f /\ t <> None.
Proof.
  unfold time_member. destruct t as [t|]; [|by intros [= <-] ?%elem_of_nil].
  destruct (time_text t); [|done]. by intros [= <-] ->%list_elem_of_singleton.
Qed.

(** A member of the marshalled object names a field that is set. *)
Lemma toJSON_keys s o k :
  toJSON s = Ok o -> k ∈ o.*1 -> exists f, k = field_name f /\ ~ unset f s.
Proof.
  intros (created & expires & Hc & He & ->)%toJSON_inv.
  rewrite !fmap_app, !elem_of_app.
  intros [H|[H|[H|[H|[H|[H|[H|H]]]]]]];
    first [ apply string_member_keys in H as [-> H]
          | apply (time_member_keys _ _ _ _ Hc) in H as [-> H]
          | apply (time_member_keys _ _ _ _ He) in H as [-> H] ];
    eexists; (split; [reflexivity | exact H]).
Qed.

Lemma field_name_inj f g : field_name f = field_name g -> f = g.
Proof. by destruct f, g. Qed.

Lemma toJSON_unset s o f : toJSON s = Ok o -> unset f s -> field_name f ∉ o.*1.
Proof.
  intros Ho Hf Hin. destruct (toJSON_keys s o _ Ho Hin) as (g & Hg & Hset).
  apply field_name_inj in Hg as ->. done.
Qed.

End Members.

Section NoCipher.
Context {J : JSONText} {JL : JSONTextLaws J}.

Lemma Encode_no_cipher s w :
  EncodeSessionState s None w
  = (Ok (json_text (string_member FEmail s ++ string_member FUser s ++
                    string_member FPreferredUsername s)), w).
Proof. reflexivity. Qed.

Lemma Decode_no_cipher v ss :
  json_Unmarshal v = Ok ss ->
  DecodeSessionState v None
  = Ok {| AccessToken := ""; IDToken := ""; CreatedAt := None; ExpiresOn := None;
          RefreshToken := ""; Email := Email ss;
          User := if nonempty (User ss) then User ss else Email ss;
          PreferredUsername := PreferredUsername ss |}.
Proof.
  intros Hv. unfold DecodeSessionState. rewrite Hv. cbn. unfold default_user. cbn.
  by destruct (nonempty (User ss)).
Qed.

Lemma Decode_no_cipher_members s :
  DecodeSessionState (json_text (string_member FEmail s ++ string_member FUser s ++
                                 string_member FPreferredUsername s)) None
  = Ok {| AccessToken := ""; IDToken := ""; CreatedAt := None; ExpiresOn := None;
          RefreshToken := ""; Email := Email s;
          User := if nonempty (User s) then User s else Email s;
          PreferredUsername := PreferredUsername s |}.
Proof.
  pose (ss := {| AccessToken := ""; IDToken := ""; CreatedAt := None; ExpiresOn := None;
                 RefreshToken := ""; Email := Email s; User := User s;
                 PreferredUsername := PreferredUsername s |}).
  rewrite (Decode_no_cipher _ ss); [done|].
  apply Unmarshal_Marshal. reflexivity.
Qed.


End NoCipher.

(** ** Field presence *)

Section Presence.
Context {J : JSONText} {JL : JSONTextLaws J}.

(** Members that were stored without an error, followed by more. *)
Lemma fill_Ok_app o : forall s saved s1,
  fill o s saved = Ok s1 ->
  saved = None /\ forall o', fill (o ++ o') s saved = fill o' s1 None.
Proof.
  induction o as [|[k v] o IH]; intros s saved s1; cbn [fill app].
  - destruct saved; [done|]. by intros [= <-].
  - destruct (field_of_key k) as [f|]; [|apply IH].
    destruct (store f v s) as [s2| |e]; [apply IH| |done].
    by intros [[=] _]%IH.
Qed.

(** A member with the empty string, after the members of a session
    without a refresh token, changes nothing of what is decoded. *)
Lemma Decode_empty_refresh_token_member ss o c :
  toJSON ss = Ok o -> RefreshToken ss = "" ->
  DecodeSessionState (json_text (o ++ [("RefreshToken", JString "")])) c
  = DecodeSessionState (json_text o) c.
Proof.
  intros Ho Hrt.
  pose proof (toJSON_marshalled _ _ Ho) as Hm.
  pose proof (fill_toJSON _ _ Ho) as Hfill.
  assert (Hfill' : fill (o ++ [("RefreshToken", JString "")]) zero_SessionState None
                   = Ok ss).
  { destruct (fill_Ok_app _ _ _ _ Hfill) as [_ ->]. cbn [fill].
    rewrite (field_of_key_name FRefreshToken
             : field_of_key "RefreshToken" = Some FRefreshToken).
    cbn [store is_time_field]. f_equal.
    destruct ss as [? ? ? ? rt ? ? ?]. cbn in Hrt. by subst rt. }
  unfold DecodeSessionState, json_Unmarshal.
  rewrite !json_parse_text by (by rewrite ?marshalled_app, ?Hm).
  by rewrite Hfill, Hfill'.
Qed.


End Presence.

(* ===================================================================== *)
(** * The redis store *)
(* ===================================================================== *)

(** ** Steps that only draw randomness *)

Lemma draws_only_ret {A} (a : A) : draws_only (ret a).
Proof. by intros w r w' [= <- <-]. Qed.

Lemma draws_only_lift {A} (o : outcome A) : draws_only (lift o).
Proof. by intros w r w' [= <- <-]. Qed.

Lemma draws_only_Now : draws_only Now.
Proof. by intros w r w' [= <- <-]. Qed.

Lemma draws_only_bind {A B} (m : M A) (k : A -> M B) :
  draws_only m -> (forall a, draws_only (k a)) -> draws_only (bind m k).
Proof.
  intros Hm Hk w r w'. unfold bind.
  destruct (m w) as [[a|e|msg] w1] eqn:Hmw; [|by intros [= <- <-]; eapply Hm..].
  intros Hka. destruct (Hm _ _ _ Hmw) as (Hc & Hr & Hp).
  destruct (Hk _ _ _ _ Hka) as (Hc' & Hr' & Hp'). by rewrite Hc', Hr', Hp'.
Qed.

Lemma draws_only_wrapping {A} prefix (m : M A) : draws_only m -> draws_only (wrapping prefix m).
Proof.
  intros Hm w r w'. unfold wrapping.
  destruct (m w) as [[a|e|msg] w1] eqn:Hmw; intros [= <- <-]; by eapply Hm.
Qed.

Lemma draws_only_rand n : draws_only (rand_ReadFull n).
Proof.
  intros w r w'. unfold rand_ReadFull.
  destruct (length (entropy w) <? n)%nat; by intros [= <- <-].
Qed.

Lemma draws_only_newTicket : draws_only newTicket.
Proof.
  unfold newTicket.
  apply draws_only_bind; [apply draws_only_wrapping, draws_only_rand|]. intros rawID.
  apply draws_only_bind; [apply draws_only_wrapping, draws_only_rand|]. intros secret.
  apply draws_only_ret.
Qed.

Lemma draws_only_encrypt c p : draws_only (encrypt c p).
Proof.
  intros w r w'. unfold encrypt. destruct (Encrypt c p (entropy w)). by intros [= <- <-].
Qed.

Lemma draws_only_encrypt_field c f ss : draws_only (encrypt_field c f ss).
Proof.
  unfold encrypt_field. destruct (nonempty (get_string f ss)); [|apply draws_only_ret].
  apply draws_only_bind; [apply draws_only_encrypt | intros; apply draws_only_ret].
Qed.

Lemma draws_only_Encode {J : JSONText} s c : draws_only (EncodeSessionState s c).
Proof.
  unfold EncodeSessionState. apply draws_only_bind; [|intros; apply draws_only_lift].
  destruct c as [c|]; [|apply draws_only_ret].
  do 5 (apply draws_only_bind; [apply draws_only_encrypt_field|]; intros ?).
  apply draws_only_encrypt_field.
Qed.

(** ** Minting a ticket *)

Lemma newTicket_Ok w :
  (32 <= length (entropy w))%nat ->
  newTicket w
  = (Ok {| TicketID := Hex.EncodeToString (take 16 (entropy w));
           Secret := take 16 (drop 16 (entropy w)) |},
     set_entropy (drop 32 (entropy w)) w).
Proof.
  intros Hlen. unfold newTicket, bind, wrapping, rand_ReadFull, BlockSize.
  destruct (length (entropy w) <? 16)%nat eqn:H1; [apply Nat.ltb_lt in H1; lia|].
  cbn [entropy set_entropy]. rewrite length_drop.
  destruct (length (entropy w) - 16 <? 16)%nat eqn:H2; [apply Nat.ltb_lt in H2; lia|].
  unfold ret, set_entropy. cbn. by rewrite drop_drop.
Qed.

Lemma newTicket_Err w :
  (length (entropy w) < 32)%nat -> exists e w', newTicket w = (Err e, w').
Proof.
  intros Hlen. unfold newTicket, bind, wrapping, rand_ReadFull, BlockSize.
  destruct (length (entropy w) <? 16)%nat eqn:H1; [eauto|].
  cbn [entropy set_entropy]. rewrite length_drop.
  destruct (length (entropy w) - 16 <? 16)%nat eqn:H2; [eauto|].
  apply Nat.ltb_ge in H1, H2. lia.
Qed.

Lemma newTicket_well_formed w t w' :
  newTicket w = (Ok t, w') ->
  is_Some (Hex.DecodeString (TicketID t)) /\ free_of "." (TicketID t) = true /\
  length (Secret t) = 16%nat.
Proof.
  destruct (decide (32 <= length (entropy w))%nat) as [Hlen|Hlen].
  - rewrite newTicket_Ok by done. intros [= <- _]. cbn [TicketID Secret].
    rewrite HexFacts.hex_DecodeString_EncodeToString. split; [eauto|]. split.
    + apply HexFacts.hex_EncodeToString_no_dot.
    + rewrite length_take, length_drop. lia.
  - destruct (newTicket_Err w) as (e & w1 & ->); [lia | done].
Qed.

Section Ticket.
Context {S : Signer}.

Lemma draws_only_getTicket store requestCookie : draws_only (getTicket store requestCookie).
Proof.
  unfold getTicket. destruct requestCookie as [c|]; [|apply draws_only_newTicket].
  apply draws_only_bind; [apply draws_only_Now|]. intros now.
  destruct (Validate c (options.Secret (CookieOptions store))
                     (options.Expire (CookieOptions store)) now) as [[val ?]|];
    [|apply draws_only_newTicket].
  destruct (decodeTicket (options.Name (CookieOptions store)) val);
    first [apply draws_only_ret | apply draws_only_newTicket].
Qed.

(** C5.  [getTicket] gives back the ticket of the request cookie, drawing
    no randomness, when the cookie passes [Validate] and its value decodes
    to a ticket, which is when the value is the cookie name, a dash, a
    hexadecimal ticket ID, a dot and a base64 secret.  In every other case
    (no cookie, a cookie that fails validation, a value that does not
    decode) it is [newTicket]: 16 bytes from the random source for the ID,
    hex encoded, and the next 16 bytes for the secret, or an error when the
    source does not deliver 32 bytes. *)
Theorem getTicket_policy (store : SessionStore) (requestCookie : option Cookie) (w : World) :
  let name := options.Name (CookieOptions store) in
  let valid c :=
    Validate c (options.Secret (CookieOptions store))
             (options.Expire (CookieOptions store)) (clock w) in
  (forall c val ts t,
      requestCookie = Some c -> valid c = Some (val, ts) ->
      decodeTicket name val = Ok t ->
      getTicket store requestCookie w = (Ok t, w)) /\
  (requestCookie = None \/
   (exists c, requestCookie = Some c /\ valid c = None) \/
   (exists c val ts, requestCookie = Some c /\ valid c = Some (val, ts) /\
                     forall t, decodeTicket name val <> Ok t) ->
   getTicket store requestCookie w = newTicket w) /\
  (forall val t,
      decodeTicket name val = Ok t <->
      exists secretBase64,
        val = (name +:+ "-") +:+ TicketID t +:+ String "." secretBase64 /\
        free_of "." (TicketID t) = true /\ free_of "." secretBase64 = true /\
        is_Some (Hex.DecodeString (TicketID t)) /\
        Base64.DecodeString secretBase64 = Some (Secret t)) /\
  ((32 <= length (entropy w))%nat ->
   exists rawID secret rest,
     entropy w = rawID ++ secret ++ rest /\
     length rawID = 16%nat /\ length secret = 16%nat /\
     newTicket w = (Ok {| TicketID := Hex.EncodeToString rawID; Secret := secret |},
                    set_entropy rest w)) /\
  ((length (entropy w) < 32)%nat -> exists e w', newTicket w = (Err e, w')).
Proof.
  intros name valid. repeat split.
  - intros c val ts t -> Hvalid Hdec. unfold getTicket, bind, Now.
    fold (valid c). rewrite Hvalid. fold name. by rewrite Hdec.
  - intros [->|[(c & -> & Hvalid)|(c & val & ts & -> & Hvalid & Hdec)]]; [done|..];
      unfold getTicket, bind, Now; fold (valid c); rewrite Hvalid; [done|].
    fold name. destruct (decodeTicket name val) as [t| |] eqn:Ht; [|done..].
    by destruct (Hdec t).
  - by intros ?%decodeTicket_Ok.
  - by intros ?%decodeTicket_Ok.
  - intros Hlen. exists (take 16 (entropy w)), (take 16 (drop 16 (entropy w))),
      (drop 32 (entropy w)).
    split; [|split; [|split]].
    + rewrite <- (drop_drop _ 16 16). by rewrite !take_drop.
    + rewrite length_take. lia.
    + rewrite length_take, length_drop. lia.
    + by apply newTicket_Ok.
  - apply newTicket_Err.
Qed.

End Ticket.

(** ** Save, then Load *)

Lemma nonempty_app s t : nonempty (s +:+ t) = nonempty s || nonempty t.
Proof. by destruct s. Qed.

Lemma encodeTicket_nonempty ticket prefix : nonempty (encodeTicket ticket prefix) = true.
Proof.
  unfold encodeTicket, asHandle. rewrite !nonempty_app. cbn. by rewrite !orb_true_r.
Qed.

Lemma aes_NewCipher_Ok key block : aes_NewCipher key = Ok block -> block = key.
Proof.
  unfold aes_NewCipher.
  destruct ((length key =? 16) || (length key =? 24) || (length key =? 32))%nat;
    by intros [= <-].
Qed.

Section SaveLoad.
Context {aes : BlockCipher} {J : JSONText} {S : Signer}.

Lemma getTicket_well_formed store requestCookie w t w' :
  getTicket store requestCookie w = (Ok t, w') ->
  is_Some (Hex.DecodeString (TicketID t)) /\ free_of "." (TicketID t) = true.
Proof.
  assert (Hnew : forall w0, newTicket w0 = (Ok t, w') ->
            is_Some (Hex.DecodeString (TicketID t)) /\ free_of "." (TicketID t) = true).
  { intros w0 H. apply newTicket_well_formed in H. tauto. }
  unfold getTicket. destruct requestCookie as [c|]; [|apply Hnew].
  unfold bind, Now.
  destruct (Validate c (options.Secret (CookieOptions store))
                     (options.Expire (CookieOptions store)) (clock w)) as [[val ?]|];
    [|apply Hnew].
  destruct (decodeTicket (options.Name (CookieOptions store)) val) as [t'| |] eqn:Hdec;
    [|apply Hnew..].
  intros [= <- <-]. apply decodeTicket_Ok in Hdec as (b & _ & Hfree & _ & Hhex & _). done.
Qed.

(** What a successful [storeValue] has done. *)
Lemma storeValue_Ok store value expiration requestCookie w ticketString w' :
  storeValue store value expiration requestCookie w = (Ok ticketString, w') ->
  exists ticket stream,
    is_Some (Hex.DecodeString (TicketID ticket)) /\
    free_of "." (TicketID ticket) = true /\
    aes_NewCipher (Secret ticket) = Ok (Secret ticket) /\
    NewCFBEncrypter (Secret ticket) (Secret ticket) = Ok stream /\
    ticketString = encodeTicket ticket (options.Name (CookieOptions store)) /\
    clock w' = clock w /\ response w' = response w /\
    fault (redis w') = None /\
    entries (redis w') !! asHandle ticket (options.Name (CookieOptions store))
    = Some (XORKeyStream stream (bytes_of value)).
Proof.
  unfold storeValue.
  intros (ticket & w1 & Hticket%wrapping_Ok & H)%bind_Ok.
  apply bind_Ok in H as (block & w2 & [Hblock ->]%wrapping_Ok%lift_Ok & H).
  apply bind_Ok in H as (stream & w3 & [Hstream ->]%lift_Ok & H).
  apply bind_Ok in H as ([] & w4 & Hset & [= <- <-]).
  pose proof (aes_NewCipher_Ok _ _ Hblock) as ->.
  destruct (getTicket_well_formed _ _ _ _ _ Hticket) as [Hhex Hfree].
  destruct (draws_only_getTicket _ _ _ _ _ Hticket) as (Hclock & Hredis & Hresp).
  exists ticket, stream. repeat split; try done.
  - unfold redis_Set in Hset. destruct (fault (redis w1)); [done|]. by injection Hset as <-.
  - unfold redis_Set in Hset. destruct (fault (redis w1)); [done|]. by injection Hset as <-.
  - unfold redis_Set in Hset. destruct (fault (redis w1)); [done|]. by injection Hset as <-.
  - unfold redis_Set in Hset. destruct (fault (redis w1)); [done|]. injection Hset as <-.
    cbn. apply lookup_insert_eq.
Qed.

(** [Load]'s inner step finds, decrypts and decodes what [storeValue]
    stored under the ticket. *)
Lemma loadSessionFromString_stored store ticket stream value w :
  is_Some (Hex.DecodeString (TicketID ticket)) ->
  free_of "." (TicketID ticket) = true ->
  aes_NewCipher (Secret ticket) = Ok (Secret ticket) ->
  NewCFBEncrypter (Secret ticket) (Secret ticket) = Ok stream ->
  fault (redis w) = None ->
  entries (redis w) !! asHandle ticket (options.Name (CookieOptions store))
  = Some (XORKeyStream stream (bytes_of value)) ->
  loadSessionFromString store (encodeTicket ticket (options.Name (CookieOptions store))) w
  = (DecodeSessionState value (CookieCipher store), w).
Proof.
  intros Hhex Hfree Hblock Hstream Hfault Hentry.
  unfold loadSessionFromString, bind, lift, redis_Get.
  rewrite decodeTicket_encodeTicket by done.
  rewrite Hfault, Hentry, Hblock.
  assert (Hdec : exists dec, NewCFBDecrypter (Secret ticket) (Secret ticket) = Ok dec).
  { revert Hstream. unfold NewCFBEncrypter, NewCFBDecrypter, newCFB.
    destruct (length (Secret ticket) =? BlockSize)%nat; [eauto | done]. }
  destruct Hdec as [dec Hdec]. rewrite Hdec.
  rewrite (CFB_decrypt_encrypt _ _ _ _ _ Hstream Hdec).
  by rewrite string_of_bytes_of.
Qed.

End SaveLoad.

Section ReadYourWrites.
Context {aes : BlockCipher} {J : JSONText} {S : Signer}.
Context {JL : JSONTextLaws J} {SL : SignerLaws S}.


End ReadYourWrites.

(** ** Clear *)

Section Clearing.
Context {S : Signer}.

(** The cookie [Clear] writes: no value, expired an hour ago. *)
Lemma makeCookie_clear store req now :
  makeCookie store req "" (Hour * -1) now
  = {| Name := options.Name (CookieOptions store); Value := "";
       Expires := now - Hour |}.
Proof.
  unfold makeCookie, MakeCookieFromOptions, time_Add, Hour. cbn [nonempty].
  f_equal; lia.
Qed.

(** The conclusions of a case of [Clear]: each one holds because its
    premises contradict the case, or by what the case returned. *)
Ltac clear_cases :=
  repeat split; intros;
  repeat match goal with
         | H1 : ?x = _, H2 : ?x = _ |- _ => rewrite H1 in H2
         end;
  simplify_eq; cbn; eauto; try congruence;
  try (exfalso;
       match goal with
       | H : forall t, decodeTicket _ _ <> Ok t |- _ => eapply H; eassumption
       end);
  try (right; eexists _, _, _, _, _; repeat split; eassumption).

(** [Clear], case by case. *)
Lemma Clear_unfold store req w :
  Clear store req w
  = let name := options.Name (CookieOptions store) in
    let w1 := set_response (response w ++ [{| Name := name; Value := "";
                                              Expires := clock w - Hour |}]) w in
    match req_Cookie req name with
    | Ok c =>
        match Validate c (options.Secret (CookieOptions store))
                       (options.Expire (CookieOptions store)) (clock w) with
        | None => (Err ErrSignature, w1)
        | Some (val, _) =>
            match decodeTicket name val with
            | Ok t =>
                match fault (redis w) with
                | Some e => (Err (ErrWrap "error clearing cookie from redis" e), w1)
                | None =>
                    (Ok tt, set_redis {| entries := delete (asHandle t name) (entries (redis w));
                                         fault := None |} w1)
                end
            | _ => (Ok tt, w1)
            end
        end
    | Err ErrNoCookie => (Ok tt, w1)
    | Err e => (Err (ErrWrap "error retrieving cookie" e), w1)
    | Panic msg => (Panic msg, w1)
    end.
Proof.
  unfold Clear, bind, Now, SetCookie. rewrite makeCookie_clear. cbn zeta.
  destruct (req_Cookie req (options.Name (CookieOptions store))) as [c|e|msg]; [|by destruct e|done].
  cbn [clock set_response].
  destruct (Validate c _ _ _) as [[val ts]|]; [|done].
  destruct (decodeTicket (options.Name (CookieOptions store)) val) as [t| |]; [|done..].
  unfold wrapping, redis_Del. cbn [redis set_response].
  by destruct (fault (redis w)).
Qed.

(** C7, as the code has it.  [Clear] always writes the clearing cookie
    (empty value, expired) to the response, before anything else.  It
    returns an error in two cases, and in these only: the request cookie
    fails [Validate], or the cookie passes [Validate], its value decodes
    to a ticket and the cache cannot delete the entry.  Without a request
    cookie, and with a cookie that passes [Validate] but whose value does
    not decode to a ticket, it returns no error and leaves the cache as it
    is, also when the cache is down; with a valid ticket and a working
    cache it deletes the entry.  It never panics. *)
Theorem Clear_outcome (store : SessionStore) (req : Request) (w : World) :
  let name := options.Name (CookieOptions store) in
  let valid c :=
    Validate c (options.Secret (CookieOptions store))
             (options.Expire (CookieOptions store)) (clock w) in
  let clearCookie := {| Name := name; Value := ""; Expires := clock w - Hour |} in
  exists r w',
    Clear store req w = (r, w') /\
    response w' = response w ++ [clearCookie] /\
    Expires clearCookie < clock w /\
    (req_Cookie req name = Err ErrNoCookie -> r = Ok tt /\ redis w' = redis w) /\
    (forall c, req_Cookie req name = Ok c -> valid c = None ->
               r = Err ErrSignature /\ redis w' = redis w) /\
    (forall c val ts t e,
        req_Cookie req name = Ok c -> valid c = Some (val, ts) ->
        decodeTicket name val = Ok t -> fault (redis w) = Some e ->
        r = Err (ErrWrap "error clearing cookie from redis" e) /\ redis w' = redis w) /\
    (forall c val ts t,
        req_Cookie req name = Ok c -> valid c = Some (val, ts) ->
        decodeTicket name val = Ok t -> fault (redis w) = None ->
        r = Ok tt /\ entries (redis w') = delete (asHandle t name) (entries (redis w))) /\
    (forall c val ts,
        req_Cookie req name = Ok c -> valid c = Some (val, ts) ->
        (forall t, decodeTicket name val <> Ok t) ->
        r = Ok tt /\ redis w' = redis w) /\
    (forall e, r = Err e ->
        (e = ErrSignature /\ exists c, req_Cookie req name = Ok c /\ valid c = None) \/
        (exists e0 c val ts t,
            e = ErrWrap "error clearing cookie from redis" e0 /\
            fault (redis w) = Some e0 /\
            req_Cookie req name = Ok c /\ valid c = Some (val, ts) /\
            decodeTicket name val = Ok t)) /\
    (forall msg, r <> Panic msg).
Proof.
  cbv zeta. rewrite Clear_unfold. cbv zeta.
  assert (Hexp : clock w - Hour < clock w) by (unfold Hour; lia).
  destruct (req_Cookie req (options.Name (CookieOptions store))) as [c|e|msg] eqn:Hcookie.
  - destruct (Validate c (options.Secret (CookieOptions store))
                       (options.Expire (CookieOptions store)) (clock w))
      as [[val ts]|] eqn:Hvalid.
    + destruct (decodeTicket (options.Name (CookieOptions store)) val) as [t| |] eqn:Hdec.
      * destruct (fault (redis w)) as [e|] eqn:Hfault.
        -- eexists _, _. split; [reflexivity|]. split; [done|]. split; [done|].
           clear_cases.
        -- eexists _, _. split; [reflexivity|]. split; [done|]. split; [done|].
           clear_cases.
      * eexists _, _. split; [reflexivity|]. split; [done|]. split; [done|].
        clear_cases.
      * eexists _, _. split; [reflexivity|]. split; [done|]. split; [done|].
        clear_cases.
    + eexists _, _. split; [reflexivity|]. split; [done|]. split; [done|].
      clear_cases.
  - assert (e = ErrNoCookie) as ->.
    { revert Hcookie. unfold req_Cookie.
      destruct (List.find _ (Cookies req)); by intros [= <-]. }
    eexists _, _. split; [reflexivity|]. split; [done|]. split; [done|].
    clear_cases.
  - exfalso. revert Hcookie. unfold req_Cookie.
    by destruct (List.find _ (Cookies req)).
Qed.

(** C10.  When the request cookie passes [Validate] but its value does not
    decode to a ticket, [Clear] writes the clearing cookie, deletes
    nothing and returns no error: the response apart, the state is as
    before. *)
Theorem Clear_undecodable_ticket (store : SessionStore) (req : Request) (w : World)
  (c : Cookie) (val : string) (ts : Time) :
  req_Cookie req (options.Name (CookieOptions store)) = Ok c ->
  Validate c (options.Secret (CookieOptions store))
           (options.Expire (CookieOptions store)) (clock w) = Some (val, ts) ->
  (forall t, decodeTicket (options.Name (CookieOptions store)) val <> Ok t) ->
  Clear store req w
  = (Ok tt,
     set_response (response w ++ [{| Name := options.Name (CookieOptions store);
                                     Value := ""; Expires := clock w - Hour |}]) w).
Proof.
  intros Hcookie Hvalid Hdec.
  unfold Clear, bind, Now, SetCookie. rewrite makeCookie_clear, Hcookie.
  cbn [clock set_response]. rewrite Hvalid.
  destruct (decodeTicket (options.Name (CookieOptions store)) val) as [t| |] eqn:Ht;
    [by destruct (Hdec t)|done..].
Qed.

End Clearing.

(** ** A ticket whose secret is not an AES key *)

Lemma aes_NewCipher_Err key :
  ~ aes_key_length (length key) -> aes_NewCipher key = Err (ErrKeySize (length key)).
Proof.
  unfold aes_key_length, aes_NewCipher. intros H.
  destruct (length key =? 16)%nat eqn:H16; [apply Nat.eqb_eq in H16; tauto|].
  destruct (length key =? 24)%nat eqn:H24; [apply Nat.eqb_eq in H24; tauto|].
  destruct (length key =? 32)%nat eqn:H32; [apply Nat.eqb_eq in H32; tauto|].
  done.
Qed.

Section BadSecret.
Context {aes : BlockCipher} {J : JSONText} {S : Signer}.

(** C9, as the code has it.  For a request cookie that passes [Validate]
    and decodes to a ticket whose secret is not 16, 24 or 32 bytes long:
    [Load] returns an error and no session, and does not panic; the error
    is the cache's when the cache fails or holds nothing under the
    ticket's handle (the cache is read first), and the AES key size error
    otherwise.  [storeValue], reusing the ticket, returns the AES key size
    error and writes nothing to the cache. *)
Theorem bad_secret_length (store : SessionStore) (w : World) (c : Cookie)
  (val : string) (ts : Time) (t : TicketData) :
  let name := options.Name (CookieOptions store) in
  Validate c (options.Secret (CookieOptions store))
           (options.Expire (CookieOptions store)) (clock w) = Some (val, ts) ->
  decodeTicket name val = Ok t ->
  ~ aes_key_length (length (Secret t)) ->
  (forall req,
      req_Cookie req name = Ok c ->
      Load store req w
      = (Err (ErrWrap "error loading session"
                (match fault (redis w) with
                 | Some e => e
                 | None =>
                     match entries (redis w) !! asHandle t name with
                     | None => ErrRedisNil
                     | Some _ => ErrKeySize (length (Secret t))
                     end
                 end)), w)) /\
  (forall value expiration,
      storeValue store value expiration (Some c) w
      = (Err (ErrWrap "error initiating cipher block" (ErrKeySize (length (Secret t)))), w)).
Proof.
  cbv zeta. intros Hvalid Hdec Hlen. split.
  - intros req Hcookie.
    unfold Load, bind, wrapping, lift, Now. rewrite Hcookie, Hvalid.
    unfold loadSessionFromString, bind, lift, redis_Get. rewrite Hdec.
    destruct (fault (redis w)) as [e|]; [done|].
    destruct (entries (redis w) !! asHandle t (options.Name (CookieOptions store)));
      [|done].
    by rewrite aes_NewCipher_Err.
  - intros value expiration.
    unfold storeValue, getTicket. unfold bind, wrapping, lift, Now, ret.
    rewrite Hvalid, Hdec. by rewrite aes_NewCipher_Err.
Qed.

End BadSecret.

(* ===================================================================== *)
(** * The default provider *)
(* ===================================================================== *)

(** C8.  The default provider's [RefreshSessionIfNeeded] returns
    [(false, nil)] for every provider and every session state, also for a
    session that has expired. *)
Theorem RefreshSessionIfNeeded_never_refreshes (p : ProviderData) (s : SessionState) :
  RefreshSessionIfNeeded p s = (false, None).
Proof. reflexivity. Qed.

(** [TestRefresh]: a session that expired eleven minutes ago is not
    refreshed. *)
Example TestRefresh :
  let p := {| ClientID := ""; Scope := ""; Prompt := ""; ApprovalPrompt := "";
              AcrValues := "" |} in
  let now := Sample.noon in
  let s := set_time FExpiresOn (Some (now - 11 * 60 * 1000000000)) zero_SessionState in
  IsExpired s now = true /\ RefreshSessionIfNeeded p s = (false, None).
Proof. split; reflexivity. Qed.

(* ===================================================================== *)
(** * The session state: expiry, age and summary *)
(* ===================================================================== *)

(** X1.  Expiry is strict and permanent: a session is not yet expired at
    the instant [ExpiresOn] itself, and one that is expired at some time
    is expired at every later time. *)
Theorem IsExpired_strict_and_permanent (s : SessionState) :
  (forall t, ExpiresOn s = Some t -> IsExpired s t = false) /\
  (forall now now', IsExpired s now = true -> now <= now' -> IsExpired s now' = true).
Proof.
  unfold IsExpired, time_Before. split.
  - intros t ->. rewrite Z.ltb_irrefl. apply andb_false_r.
  - intros now now'. destruct (ExpiresOn s) as [t|]; [|done].
    intros [Hz Hlt%Z.ltb_lt]%andb_prop Hle. rewrite Hz. cbn. apply Z.ltb_lt. lia.
Qed.

(** X2.  [Age] counts from [CreatedAt] to the current time cut down to the
    whole second: as long as the difference fits a [Duration], it is never
    more than the time that has passed since [CreatedAt] and falls short
    of it by less than a second, so it is negative for a session created
    within the current second after its start.  Without a [CreatedAt], or
    with the zero time, the age is zero. *)
Theorem Age_lags_less_than_a_second (s : SessionState) (now : Time) :
  (forall created,
      CreatedAt s = Some created -> created <> 0 ->
      minDuration + Second <= now - created <= maxDuration ->
      Age s now = now - now mod Second - created /\
      now - created - Second < Age s now <= now - created) /\
  (CreatedAt s = None \/ CreatedAt s = Some 0 -> Age s now = 0).
Proof.
  unfold Age. split.
  - intros created -> Hnz Hfit. unfold time_IsZero.
    destruct (created =? 0) eqn:Hz; [apply Z.eqb_eq in Hz; done|]. cbn [negb].
    unfold time_Truncate, time_Sub. cbn [Z.leb Second Z.compare].
    fold Second.
    pose proof (Z.mod_pos_bound now Second eq_refl) as Hmod.
    destruct (now - now mod Second - created <? minDuration) eqn:Hlo;
      [apply Z.ltb_lt in Hlo; lia|].
    destruct (maxDuration <? now - now mod Second - created) eqn:Hhi;
      [apply Z.ltb_lt in Hhi; lia|].
    lia.
  - by intros [->| ->].
Qed.

Section Summary.
Context {T : TimeString}.

(** X3.  [String] panics exactly when [CreatedAt] or [ExpiresOn] is nil:
    it calls [IsZero] through either pointer without the nil check that
    [IsExpired] and [Age] make. *)
Theorem String_panics_on_nil_timestamp (s : SessionState) :
  (CreatedAt s = None \/ ExpiresOn s = None) <->
  SessionState_String s = Panic "invalid memory address or nil pointer dereference".
Proof.
  unfold SessionState_String.
  destruct (CreatedAt s) as [created|], (ExpiresOn s) as [expires|]; cbv zeta;
    split; try done; try (intros _; by eauto); by intros [|].
Qed.

(** X4.  The summary shows of a token only whether there is one: two
    sessions that differ in the tokens only, each holding a token where
    the other does, have the same summary. *)
Theorem String_hides_tokens (s s' : SessionState) :
  same_but_tokens s s' -> SessionState_String s' = SessionState_String s.
Proof.
  intros (He & Hu & Hp & Hc & Hx & Ha & Hi & Hr). unfold SessionState_String.
  by rewrite He, Hu, Hp, Hc, Hx, Ha, Hi, Hr.
Qed.

End Summary.

(* ===================================================================== *)
(** * The codec: where errors come from, and what decoding keeps *)
(* ===================================================================== *)

Lemma get_set_string_other f g v s : g <> f -> get_string g (set_string f v s) = get_string g s.
Proof. by destruct f, g. Qed.

Lemma encrypt_field_step c f fs s ss w :
  but_for fs s ss -> f ∉ fs ->
  match encrypt_field c f ss w with
  | (Ok ss', _) => but_for (f :: fs) s ss'
  | (Err e, _) =>
      get_string f s <> "" /\ exists r r', Encrypt c (get_string f s) r = (Failure e, r')
  | (Panic _, _) => False
  end.
Proof.
  intros (Hc & Hx & Hs) Hf. unfold encrypt_field. rewrite (Hs f Hf).
  destruct (nonempty (get_string f s)) eqn:Hne.
  - unfold bind, encrypt, ret.
    destruct (Encrypt c (get_string f s) (entropy w)) as [[ct|e] r'] eqn:HE; cbn.
    + split; [by destruct f|]. split; [by destruct f|].
      intros g Hg. apply not_elem_of_cons in Hg as [Hgf Hg].
      rewrite get_set_string_other by done. by apply Hs.
    + split; [by apply nonempty_true | eauto].
  - unfold ret. split; [done|]. split; [done|].
    intros g Hg. apply not_elem_of_cons in Hg as [_ Hg]. by apply Hs.
Qed.

Ltac encrypt_step c s w Hinv f :=
  let H := fresh "Hstep" in
  let ss := fresh "ss" in
  let w' := fresh "w" in
  let e := fresh "e" in
  pose proof (encrypt_field_step c f _ s _ w Hinv) as H;
  destruct (encrypt_field c f _ w) as [[ss|e|?] w'];
  [specialize (H ltac:(rewrite ?not_elem_of_cons; repeat split;
                        first [discriminate | apply not_elem_of_nil]))
  |cbn; left; exists f;
   destruct H as [Hne (r & r' & HE)];
   [rewrite ?not_elem_of_cons; repeat split;
    first [discriminate | apply not_elem_of_nil]|];
   split; [rewrite !elem_of_cons; tauto|]; eauto
  |exfalso; apply H; rewrite ?not_elem_of_cons; repeat split;
   first [discriminate | apply not_elem_of_nil]].

Section EncodeErrors.
Context {J : JSONText}.

(** X5.  [EncodeSessionState] under a cipher never panics, and returns
    an error in two cases only: the cipher's [Encrypt] failed on one of
    the six string fields of the session, which was not empty, and the
    error is the cipher's; or one of the two timestamps has no JSON text,
    which is found after every field has been encrypted. *)
Theorem Encode_errors (c : Cipher) (s : SessionState) (w : World) :
  match (EncodeSessionState s (Some c) w).1 with
  | Ok _ => True
  | Err e =>
      (exists f,
          f ∈ [FEmail; FUser; FPreferredUsername; FAccessToken; FIDToken; FRefreshToken] /\
          get_string f s <> "" /\
          exists r r', Encrypt c (get_string f s) r = (Failure e, r')) \/
      (e = ErrTimeFormat /\
       exists t, (CreatedAt s = Some t \/ ExpiresOn s = Some t) /\ time_text t = None)
  | Panic _ => False
  end.
Proof.
  assert (H0 : but_for [] s s) by done.
  unfold EncodeSessionState, bind.
  encrypt_step c s w H0 FEmail.
  encrypt_step c s w0 Hstep FUser.
  encrypt_step c s w1 Hstep0 FPreferredUsername.
  encrypt_step c s w2 Hstep1 FAccessToken.
  encrypt_step c s w3 Hstep2 FIDToken.
  encrypt_step c s w4 Hstep3 FRefreshToken.
  destruct Hstep4 as (Hc & Hx & _).
  unfold lift, json_Marshal, toJSON, time_member. cbn [fst]. rewrite Hc, Hx.
  destruct (CreatedAt s) as [t|]; [destruct (time_text t) eqn:Ht|];
    (destruct (ExpiresOn s) as [t'|]; [destruct (time_text t') eqn:Ht'|]); cbn;
    try done; right; eauto 10.
Qed.

(** X6.  Whatever the text and the cipher: a session that
    [DecodeSessionState] returns has a user whenever it has an email. *)
Theorem Decode_user_defaults_to_email (v : string) (c : option Cipher) (s : SessionState) :
  DecodeSessionState v c = Ok s -> User s = "" -> Email s = "".
Proof.
  unfold DecodeSessionState. destruct (json_Unmarshal v) as [ss| |]; [|done..].
  match goal with |- (?m ≫= _) = _ -> _ => destruct m as [ss'| |] end; [|done..].
  cbn. intros [= <-]. unfold default_user.
  destruct ss' as [? ? ? ? ? em us ?]. cbn. destruct us; cbn; [|done]. by intros ?.
Qed.

(** X7.  Without a cipher [DecodeSessionState] keeps the email, the user
    and the preferred username only, whatever the text holds: a session
    it returns has no tokens and no timestamps, so it is expired at no
    time and its age is zero. *)
Theorem Decode_without_cipher_forgets (v : string) (s : SessionState) :
  DecodeSessionState v None = Ok s ->
  AccessToken s = "" /\ IDToken s = "" /\ RefreshToken s = "" /\
  CreatedAt s = None /\ ExpiresOn s = None /\
  forall now, IsExpired s now = false /\ Age s now = 0.
Proof.
  unfold DecodeSessionState. destruct (json_Unmarshal v) as [ss| |]; [|done..].
  cbn. unfold default_user. cbn. unfold IsExpired, Age.
  by destruct (nonempty (User ss)); intros [= <-].
Qed.

End EncodeErrors.

(* ===================================================================== *)
(** * Tickets *)
(* ===================================================================== *)

Lemma fromHexChar_not_dot c n :
  Hex.fromHexChar c = Some n -> negb (Ascii.eqb c "."%char) = true.
Proof. destruct c as [[] [] [] [] [] [] [] []]; done. Qed.

Lemma hex_decode_free cs :
  is_Some (Hex.decode cs) -> forallb (fun c => negb (Ascii.eqb c "."%char)) cs = true.
Proof.
  assert (H : forall n cs, (length cs <= n)%nat -> is_Some (Hex.decode cs) ->
                           forallb (fun c => negb (Ascii.eqb c "."%char)) cs = true).
  { clear cs. induction n as [|n IH]; intros [|c1 [|c2 r]] Hlen; cbn [Hex.decode forallb];
      try done; try (cbn in Hlen; lia); try (by intros [? [=]]).
    destruct (Hex.fromHexChar c1) as [h|] eqn:H1; [|by intros [? [=]]].
    destruct (Hex.fromHexChar c2) as [l|] eqn:H2; [|by intros [? [=]]].
    destruct (Hex.decode r) as [bs|] eqn:Hr; [|by intros [? [=]]].
    intros _. rewrite (fromHexChar_not_dot _ _ H1), (fromHexChar_not_dot _ _ H2).
    cbn [andb]. apply IH; [cbn in Hlen; lia|]. rewrite Hr. eauto. }
  apply (H (length cs)). lia.
Qed.

Lemma string_all_bytes_of P s : string_all P s = forallb P (bytes_of s).
Proof. by rewrite <- (string_of_bytes_of s) at 1; rewrite string_all_string_of. Qed.

(** A hexadecimal string holds no dot. *)
Lemma hex_DecodeString_free s : is_Some (Hex.DecodeString s) -> free_of "." s = true.
Proof.
  intros H. unfold free_of. rewrite string_all_bytes_of. by apply hex_decode_free.
Qed.

(** [Split] gives one piece more for each separator. *)
Lemma Split_length a r sep :
  length (Split (a +:+ String sep r) sep) = (length (Split a sep) + length (Split r sep))%nat.
Proof.
  induction a as [|c a IH].
  - rewrite sapp_empty. cbn. by rewrite Ascii.eqb_refl.
  - rewrite sapp_cons. cbn [Split]. destruct (Ascii.eqb c sep); cbn [length]; [by rewrite IH|].
    destruct (Split (a +:+ String sep r) sep) as [|p ps] eqn:H1;
      [by apply Split_nonempty in H1|].
    destruct (Split a sep) as [|q qs] eqn:H2; [by apply Split_nonempty in H2|].
    cbn [length] in *. lia.
Qed.

Lemma Split_length_pos s sep : (1 <= length (Split s sep))%nat.
Proof.
  destruct (Split s sep) eqn:H; [by apply Split_nonempty in H | cbn; lia].
Qed.

(** X8.  A ticket with a hexadecimal ID is read back by [decodeTicket]
    from the string [encodeTicket] wrote for it, under the same cookie
    name; so two such tickets with the same string are the same ticket. *)
Theorem encodeTicket_roundtrip (prefix : string) (ticket : TicketData) :
  is_Some (Hex.DecodeString (TicketID ticket)) ->
  decodeTicket prefix (encodeTicket ticket prefix) = Ok ticket /\
  (forall ticket',
      is_Some (Hex.DecodeString (TicketID ticket')) ->
      encodeTicket ticket' prefix = encodeTicket ticket prefix -> ticket' = ticket).
Proof.
  intros Hhex.
  assert (Hrt : forall t, is_Some (Hex.DecodeString (TicketID t)) ->
                          decodeTicket prefix (encodeTicket t prefix) = Ok t).
  { intros t Ht. apply decodeTicket_encodeTicket; [done | by apply hex_DecodeString_free]. }
  split; [by apply Hrt|].
  intros ticket' Hhex' Heq. apply Hrt in Hhex'. rewrite Heq, (Hrt _ Hhex) in Hhex'.
  by injection Hhex'.
Qed.

(** X9.  The errors of [decodeTicket], in the order of its checks: a
    string that does not start with the cookie name and a dash is no
    ticket handle; what follows the dash must hold exactly one dot; the
    part before the dot must be hexadecimal (this is reported even if the
    part after it is not base64); the part after the dot must be base64.
    It never panics. *)
Theorem decodeTicket_errors (cookieName : string) :
  let prefix := cookieName +:+ "-" in
  (forall ticketString,
      HasPrefix ticketString prefix = false ->
      decodeTicket cookieName ticketString = Err ErrTicketHandle) /\
  (forall rest,
      free_of "." rest = true ->
      decodeTicket cookieName (prefix +:+ rest) = Err ErrTicketParts) /\
  (forall a b c,
      decodeTicket cookieName (prefix +:+ (a +:+ String "." (b +:+ String "." c)))
      = Err ErrTicketParts) /\
  (forall ticketID secretBase64,
      free_of "." ticketID = true -> free_of "." secretBase64 = true ->
      Hex.DecodeString ticketID = None ->
      decodeTicket cookieName (prefix +:+ (ticketID +:+ String "." secretBase64))
      = Err ErrTicketSanity) /\
  (forall ticketID secretBase64,
      is_Some (Hex.DecodeString ticketID) -> free_of "." secretBase64 = true ->
      Base64.DecodeString secretBase64 = None ->
      decodeTicket cookieName (prefix +:+ (ticketID +:+ String "." secretBase64))
      = Err ErrTicketSecret) /\
  (forall ticketString msg, decodeTicket cookieName ticketString <> Panic msg).
Proof.
  cbv zeta. unfold decodeTicket. repeat split.
  - intros ticketString ->. reflexivity.
  - intros rest Hfree. rewrite HasPrefix_app, TrimPrefix_app. cbn [negb].
    by rewrite Split_free.
  - intros a b c. rewrite HasPrefix_app, TrimPrefix_app. cbn [negb].
    pose proof (Split_length a (b +:+ String "." c) ".") as Hlen.
    rewrite (Split_length b c ".") in Hlen.
    pose proof (Split_length_pos a ".") as Ha.
    pose proof (Split_length_pos b ".") as Hb.
    pose proof (Split_length_pos c ".") as Hc.
    destruct (Split (a +:+ String "." (b +:+ String "." c)) ".") as [|p [|q [|? ?]]];
      try done. cbn in Hlen. lia.
  - intros ticketID secretBase64 Hid Hsec Hhex.
    rewrite HasPrefix_app, TrimPrefix_app. cbn [negb].
    rewrite Split_app, Split_free by done. by rewrite Hhex.
  - intros ticketID secretBase64 [raw Hhex] Hsec Hb64.
    rewrite HasPrefix_app, TrimPrefix_app. cbn [negb].
    rewrite Split_app, Split_free by (done || by apply hex_DecodeString_free; eauto).
    by rewrite Hhex, Hb64.
  - intros ticketString msg.
    destruct (negb (HasPrefix ticketString (cookieName +:+ "-"))); [done|].
    destruct (Split _ _) as [|ticketID [|secretBase64 [|? ?]]]; try done.
    destruct (Hex.DecodeString ticketID); [|done].
    by destruct (Base64.DecodeString secretBase64).
Qed.

(* ===================================================================== *)
(** * The redis store, step by step *)
(* ===================================================================== *)

Section Steps.
Context {aes : BlockCipher} {J : JSONText} {S : Signer}.

Lemma getTicket_carries store c w t :
  carries store c (clock w) t -> getTicket store (Some c) w = (Ok t, w).
Proof.
  intros (val & ts & Hvalid & Hdec). unfold getTicket, bind, Now. by rewrite Hvalid, Hdec.
Qed.

Lemma getTicket_unusable store c w :
  (forall t, ~ carries store c (clock w) t) -> getTicket store (Some c) w = newTicket w.
Proof.
  intros Hno. unfold getTicket, bind, Now.
  destruct (Validate c _ _ _) as [[val ts]|] eqn:Hvalid; [|done].
  destruct (decodeTicket _ val) as [t| |] eqn:Hdec; [|done..].
  destruct (Hno t). by exists val, ts.
Qed.

(** [storeValue], case by case. *)
Lemma storeValue_unfold store value expiration requestCookie w :
  storeValue store value expiration requestCookie w
  = let name := options.Name (CookieOptions store) in
    match getTicket store requestCookie w with
    | (Ok ticket, w1) =>
        match aes_NewCipher (Secret ticket) with
        | Ok block =>
            match NewCFBEncrypter block (Secret ticket) with
            | Ok stream =>
                match fault (redis w1) with
                | Some e => (Err e, w1)
                | None =>
                    (Ok (encodeTicket ticket name),
                     set_redis {| entries := <[asHandle ticket name :=
                                                 XORKeyStream stream (bytes_of value)]>
                                               (entries (redis w1));
                                  fault := None |} w1)
                end
            | Err e => (Err e, w1)
            | Panic msg => (Panic msg, w1)
            end
        | Err e => (Err (ErrWrap "error initiating cipher block" e), w1)
        | Panic msg => (Panic msg, w1)
        end
    | (Err e, w1) => (Err (ErrWrap "error getting ticket" e), w1)
    | (Panic msg, w1) => (Panic msg, w1)
    end.
Proof.
  unfold storeValue, bind, wrapping, lift, redis_Set, ret. cbv zeta.
  destruct (getTicket store requestCookie w) as [[ticket|e|msg] w1]; [|done..].
  destruct (aes_NewCipher (Secret ticket)) as [block|e|msg]; [|done..].
  destruct (NewCFBEncrypter block (Secret ticket)) as [stream|e|msg]; [|done..].
  by destruct (fault (redis w1)).
Qed.

Lemma stamp_created_at s now :
  match CreatedAt s with
  | Some t => if time_IsZero t then set_time FCreatedAt (Some now) s else s
  | None => set_time FCreatedAt (Some now) s
  end = set_time FCreatedAt (Some (created_at s now)) s.
Proof.
  unfold created_at. destruct s as [? ? [t|] ? ? ? ? ?]; cbn; [|done].
  by destruct (time_IsZero t).
Qed.

(** [Save], case by case. *)
Lemma Save_unfold store req s w :
  Save store req s w
  = let name := options.Name (CookieOptions store) in
    let created := created_at s (clock w) in
    let st := set_time FCreatedAt (Some created) s in
    match EncodeSessionState st (CookieCipher store) w with
    | (Ok value, wa) =>
        match storeValue store value (options.Expire (CookieOptions store))
                         (match req_Cookie req name with Ok c => Some c | _ => None end)
                         wa with
        | (Ok ticketString, wb) =>
            (Ok st,
             set_response
               (response wb ++
                [{| Name := name;
                    Value := if nonempty ticketString
                             then SignedValue (options.Secret (CookieOptions store)) name
                                              ticketString created
                             else ticketString;
                    Expires := created + options.Expire (CookieOptions store) |}]) wb)
        | (Err e, wb) => (Err e, wb)
        | (Panic msg, wb) => (Panic msg, wb)
        end
    | (Err e, wa) => (Err e, wa)
    | (Panic msg, wa) => (Panic msg, wa)
    end.
Proof.
  unfold Save, bind, Now, SetCookie, ret. rewrite stamp_created_at. cbv zeta.
  destruct (EncodeSessionState _ _ w) as [[value|e|msg] wa]; [|done..].
  destruct (storeValue _ _ _ _ wa) as [[ticketString|e|msg] wb]; [|done..].
  reflexivity.
Qed.


Lemma newCFB_Ok block iv decrypt x :
  newCFB block iv decrypt = Ok x -> length iv = 16%nat.
Proof.
  unfold newCFB, BlockSize. destruct (length iv =? 16)%nat eqn:H; [|done].
  intros _. by apply Nat.eqb_eq.
Qed.

Lemma newCFB_length block iv decrypt :
  length iv = 16%nat -> exists x, newCFB block iv decrypt = Ok x.
Proof. unfold newCFB, BlockSize. intros ->. cbn. eauto. Qed.

Lemma newCFB_long block iv decrypt :
  length iv = 24%nat \/ length iv = 32%nat ->
  newCFB block iv decrypt = Panic "cipher.newCFB: IV length must equal block size".
Proof. unfold newCFB, BlockSize. by intros [-> | ->]. Qed.

Lemma aes_NewCipher_key key :
  aes_key_length (length key) -> aes_NewCipher key = Ok key.
Proof. unfold aes_key_length, aes_NewCipher. by intros [-> | [-> | ->]]. Qed.

(** X10.  What a [Save] that returned no error has written: one cookie,
    whose value is the signed ticket string (the session is not in it),
    signed with the session's [CreatedAt] and expiring [Expire] after it;
    and one cache entry, under the handle of the ticket, as long as the
    encoded session.  The ticket's secret has 16 bytes.  The clock, and
    every other cache entry, are as before. *)
Theorem Save_writes_one_entry_and_the_ticket_cookie (store : SessionStore)
  (req : Request) (s s1 : SessionState) (w w1 : World) :
  Save store req s w = (Ok s1, w1) ->
  let name := options.Name (CookieOptions store) in
  let created := created_at s (clock w) in
  s1 = set_time FCreatedAt (Some created) s /\
  clock w1 = clock w /\
  exists ticket value wa ciphertext,
    EncodeSessionState s1 (CookieCipher store) w = (Ok value, wa) /\
    length (Secret ticket) = 16%nat /\
    length ciphertext = length (bytes_of value) /\
    response w1
    = response w ++
      [{| Name := name;
          Value := SignedValue (options.Secret (CookieOptions store)) name
                               (encodeTicket ticket name) created;
          Expires := created + options.Expire (CookieOptions store) |}] /\
    redis w1 = {| entries := <[asHandle ticket name := ciphertext]> (entries (redis w));
                  fault := None |}.
Proof.
  rewrite Save_unfold. cbv zeta.
  destruct (EncodeSessionState _ _ w) as [[value|e|msg] wa] eqn:Henc; [|done..].
  destruct (draws_only_Encode _ _ _ _ _ Henc) as (Hclock_a & Hredis_a & Hresp_a).
  rewrite storeValue_unfold. cbv zeta.
  destruct (getTicket store _ wa) as [[ticket|e|msg] w0] eqn:Hticket; [|done..].
  destruct (draws_only_getTicket _ _ _ _ _ Hticket) as (Hclock_0 & Hredis_0 & Hresp_0).
  destruct (aes_NewCipher (Secret ticket)) as [block|e|msg] eqn:Hblock; [|done..].
  destruct (NewCFBEncrypter block (Secret ticket)) as [stream|e|msg] eqn:Hstream; [|done..].
  destruct (fault (redis w0)) as [e|] eqn:Hfault; [done|].
  intros [= <- <-]. split; [done|]. split; [cbn; congruence|].
  exists ticket, value, wa, (XORKeyStream stream (bytes_of value)).
  split; [exact Henc|]. split; [by apply newCFB_Ok in Hstream|].
  split; [apply xorKeyStream_length|]. split.
  - cbn. rewrite encodeTicket_nonempty. by rewrite Hresp_0, Hresp_a.
  - cbn. by rewrite Hredis_0, Hredis_a.
Qed.

(** X11.  A [Save] that returns an error, or panics, has written nothing:
    the cache and the response are as before (no cookie is set for a
    session that was not stored). *)
Theorem Save_failure_writes_nothing (store : SessionStore) (req : Request)
  (s : SessionState) (w w1 : World) (r : outcome SessionState) :
  Save store req s w = (r, w1) -> is_Ok r = false ->
  redis w1 = redis w /\ response w1 = response w /\ clock w1 = clock w.
Proof.
  rewrite Save_unfold. cbv zeta.
  destruct (EncodeSessionState _ _ w) as [[value|e|msg] wa] eqn:Henc;
    destruct (draws_only_Encode _ _ _ _ _ Henc) as (Hclock_a & Hredis_a & Hresp_a);
    [|by intros [= <- <-]..].
  rewrite storeValue_unfold. cbv zeta.
  destruct (getTicket store _ wa) as [[ticket|e|msg] w0] eqn:Hticket;
    destruct (draws_only_getTicket _ _ _ _ _ Hticket) as (Hclock_0 & Hredis_0 & Hresp_0);
    [|intros [= <- <-] _; repeat split; congruence..].
  destruct (aes_NewCipher (Secret ticket)) as [block|e|msg];
    [|intros [= <- <-] _; repeat split; congruence..].
  destruct (NewCFBEncrypter block (Secret ticket)) as [stream|e|msg];
    [|intros [= <- <-] _; repeat split; congruence..].
  destruct (fault (redis w0)) as [e|];
    [intros [= <- <-] _; repeat split; congruence|].
  by intros [= <- <-].
Qed.

(** X12.  [Save] without a reusable request cookie (none, one that fails
    validation, or one whose value is no ticket) succeeds whenever the
    session can be encoded, the cache is up and the random source still
    delivers 32 bytes after the encoding.  The ticket ID is the hex
    encoding of the first 16 of them and the secret the next 16; the
    entry is the encoded session in cipher feedback mode under the
    secret. *)
Theorem Save_mints_ticket (store : SessionStore) (req : Request) (s : SessionState)
  (w wa : World) (value : string) :
  let name := options.Name (CookieOptions store) in
  let created := created_at s (clock w) in
  let st := set_time FCreatedAt (Some created) s in
  let ticket := {| TicketID := Hex.EncodeToString (take 16 (entropy wa));
                   Secret := take 16 (drop 16 (entropy wa)) |} in
  EncodeSessionState st (CookieCipher store) w = (Ok value, wa) ->
  fault (redis w) = None ->
  (32 <= length (entropy wa))%nat ->
  (forall c, req_Cookie req name = Ok c -> forall t, ~ carries store c (clock w) t) ->
  exists stream,
    NewCFBEncrypter (Secret ticket) (Secret ticket) = Ok stream /\
    Save store req s w
    = (Ok st,
       {| clock := clock w;
          entropy := drop 32 (entropy wa);
          redis := {| entries := <[asHandle ticket name :=
                                     XORKeyStream stream (bytes_of value)]>
                                   (entries (redis w));
                      fault := None |};
          response := response w ++
            [{| Name := name;
                Value := SignedValue (options.Secret (CookieOptions store)) name
                                     (encodeTicket ticket name) created;
                Expires := created + options.Expire (CookieOptions store) |}] |}).
Proof.
  cbv zeta. intros Henc Hfault Hlen Hno.
  destruct (draws_only_Encode _ _ _ _ _ Henc) as (Hclock_a & Hredis_a & Hresp_a).
  set (ticket := {| TicketID := Hex.EncodeToString (take 16 (entropy wa));
                    Secret := take 16 (drop 16 (entropy wa)) |}).
  assert (Hsecret : length (Secret ticket) = 16%nat).
  { cbn. rewrite length_take, length_drop. lia. }
  destruct (newCFB_length (Secret ticket) (Secret ticket) false Hsecret) as [stream Hstream].
  exists stream. split; [exact Hstream|].
  assert (Hticket : getTicket store
                      (match req_Cookie req (options.Name (CookieOptions store)) with
                       | Ok c => Some c
                       | _ => None
                       end) wa
                    = (Ok ticket, set_entropy (drop 32 (entropy wa)) wa)).
  { unfold ticket. rewrite <- (newTicket_Ok wa Hlen).
    destruct (req_Cookie req (options.Name (CookieOptions store))) as [c| |] eqn:Hc;
      [|done..].
    apply getTicket_unusable. rewrite Hclock_a. by apply Hno. }
  rewrite Save_unfold. cbv zeta. rewrite Henc, storeValue_unfold. cbv zeta.
  rewrite Hticket, aes_NewCipher_key by (rewrite Hsecret; by left).
  unfold NewCFBEncrypter in Hstream |- *. rewrite Hstream.
  cbn [redis set_entropy]. rewrite Hredis_a, Hfault, encodeTicket_nonempty.
  f_equal. unfold set_response, set_redis, set_entropy. cbn.
  by rewrite Hclock_a, Hresp_a.
Qed.

(** X13.  [Save] with a request cookie that carries a ticket with a
    16-byte secret reuses the ticket: it draws no randomness for it,
    overwrites the entry under the ticket's handle, and the new cookie
    holds the same ticket, signed anew.  It succeeds whenever the session
    can be encoded and the cache is up. *)
Theorem Save_reuses_ticket (store : SessionStore) (req : Request) (s : SessionState)
  (w wa : World) (value : string) (c : Cookie) (ticket : TicketData) :
  let name := options.Name (CookieOptions store) in
  let created := created_at s (clock w) in
  let st := set_time FCreatedAt (Some created) s in
  req_Cookie req name = Ok c ->
  carries store c (clock w) ticket ->
  length (Secret ticket) = 16%nat ->
  EncodeSessionState st (CookieCipher store) w = (Ok value, wa) ->
  fault (redis w) = None ->
  exists stream,
    NewCFBEncrypter (Secret ticket) (Secret ticket) = Ok stream /\
    Save store req s w
    = (Ok st,
       {| clock := clock w;
          entropy := entropy wa;
          redis := {| entries := <[asHandle ticket name :=
                                     XORKeyStream stream (bytes_of value)]>
                                   (entries (redis w));
                      fault := None |};
          response := response w ++
            [{| Name := name;
                Value := SignedValue (options.Secret (CookieOptions store)) name
                                     (encodeTicket ticket name) created;
                Expires := created + options.Expire (CookieOptions store) |}] |}).
Proof.
  cbv zeta. intros Hcookie Hcarries Hsecret Henc Hfault.
  destruct (draws_only_Encode _ _ _ _ _ Henc) as (Hclock_a & Hredis_a & Hresp_a).
  destruct (newCFB_length (Secret ticket) (Secret ticket) false Hsecret) as [stream Hstream].
  exists stream. split; [exact Hstream|].
  rewrite Save_unfold. cbv zeta. rewrite Henc, storeValue_unfold. cbv zeta.
  rewrite Hcookie, (getTicket_carries store c wa ticket) by (by rewrite Hclock_a).
  rewrite aes_NewCipher_key by (rewrite Hsecret; by left).
  unfold NewCFBEncrypter in Hstream |- *. rewrite Hstream.
  rewrite Hredis_a, Hfault, encodeTicket_nonempty.
  f_equal. unfold set_response, set_redis. cbn.
  by rewrite Hclock_a, Hresp_a.
Qed.

(** X14.  The request cookie takes part in [Save] only as a source of the
    ticket: with a cookie that carries no ticket, [Save] does in every
    respect what it does for a request without cookies. *)
Theorem Save_ignores_unusable_cookie (store : SessionStore) (req : Request)
  (s : SessionState) (w : World) (c : Cookie) :
  req_Cookie req (options.Name (CookieOptions store)) = Ok c ->
  (forall t, ~ carries store c (clock w) t) ->
  Save store req s w = Save store {| Cookies := [] |} s w.
Proof.
  intros Hcookie Hno. rewrite !Save_unfold. cbv zeta.
  destruct (EncodeSessionState _ _ w) as [[value|e|msg] wa] eqn:Henc; [|done..].
  destruct (draws_only_Encode _ _ _ _ _ Henc) as (Hclock_a & _).
  rewrite !storeValue_unfold. cbv zeta. rewrite Hcookie.
  cbn [req_Cookie Cookies List.find].
  by rewrite getTicket_unusable by (rewrite Hclock_a; apply Hno).
Qed.

(** X15.  A ticket whose secret has 24 or 32 bytes passes
    [aes.NewCipher], but the secret is also the initialization vector,
    which must have 16 bytes: with a request cookie that carries such a
    ticket, [storeValue] panics, [Save] panics once the session is
    encoded, and [Load] panics when the cache holds an entry for the
    ticket. *)
Theorem long_secret_panics (store : SessionStore) (w : World) (c : Cookie)
  (ticket : TicketData) :
  let name := options.Name (CookieOptions store) in
  let panic := "cipher.newCFB: IV length must equal block size" in
  carries store c (clock w) ticket ->
  length (Secret ticket) = 24%nat \/ length (Secret ticket) = 32%nat ->
  (forall value expiration,
      storeValue store value expiration (Some c) w = (Panic panic, w)) /\
  (forall req s value wa,
      req_Cookie req name = Ok c ->
      EncodeSessionState (set_time FCreatedAt (Some (created_at s (clock w))) s)
                         (CookieCipher store) w = (Ok value, wa) ->
      Save store req s w = (Panic panic, wa)) /\
  (forall req ciphertext,
      req_Cookie req name = Ok c ->
      fault (redis w) = None ->
      entries (redis w) !! asHandle ticket name = Some ciphertext ->
      Load store req w = (Panic panic, w)).
Proof.
  cbv zeta. intros Hcarries Hlen.
  assert (Hkey : aes_NewCipher (Secret ticket) = Ok (Secret ticket)).
  { apply aes_NewCipher_key. unfold aes_key_length. tauto. }
  assert (Hstore : forall value expiration w0,
             clock w0 = clock w ->
             storeValue store value expiration (Some c) w0
             = (Panic "cipher.newCFB: IV length must equal block size", w0)).
  { intros value expiration w0 Hclock. rewrite storeValue_unfold. cbv zeta.
    rewrite (getTicket_carries store c w0 ticket) by (by rewrite Hclock).
    rewrite Hkey. unfold NewCFBEncrypter. by rewrite newCFB_long. }
  split; [|split].
  - intros value expiration. by apply Hstore.
  - intros req s value wa Hcookie Henc.
    destruct (draws_only_Encode _ _ _ _ _ Henc) as (Hclock_a & _).
    rewrite Save_unfold. cbv zeta. by rewrite Henc, Hcookie, Hstore.
  - intros req ciphertext Hcookie Hfault Hentry.
    destruct Hcarries as (val & ts & Hvalid & Hdec).
    unfold Load, bind, wrapping, lift, Now. rewrite Hcookie, Hvalid.
    unfold loadSessionFromString, bind, lift, redis_Get.
    rewrite Hdec, Hfault, Hentry, Hkey. unfold NewCFBDecrypter. by rewrite newCFB_long.
Qed.

(** X16.  [Load] only reads: whatever it returns, the cache, the
    response, the random source and the clock are as before. *)
Theorem Load_only_reads (store : SessionStore) (req : Request) (w : World) :
  (Load store req w).2 = w.
Proof.
  unfold Load, bind, wrapping, lift, Now.
  destruct (req_Cookie req _) as [c|e|msg]; [|done..].
  destruct (Validate c _ _ _) as [[val ts]|]; [|done].
  unfold loadSessionFromString, bind, lift, redis_Get.
  destruct (decodeTicket _ val) as [t| |]; [|done..].
  destruct (fault (redis w)); [done|].
  destruct (entries (redis w) !! _); [|done].
  destruct (aes_NewCipher (Secret t)); [|done..].
  destruct (NewCFBDecrypter _ _); [|done..].
  by destruct (DecodeSessionState _ _).
Qed.

(** X17.  [Load] returns a session only for a request cookie that passes
    [Validate] and carries a ticket with a 16-byte secret whose entry is
    in the cache, the cache being up; the session is the entry, decrypted
    in cipher feedback mode under the secret and decoded. *)
Theorem Load_returns_only_stored_sessions (store : SessionStore) (req : Request)
  (w w' : World) (s : SessionState) :
  Load store req w = (Ok s, w') ->
  let name := options.Name (CookieOptions store) in
  exists c ticket ciphertext stream,
    req_Cookie req name = Ok c /\
    carries store c (clock w) ticket /\
    length (Secret ticket) = 16%nat /\
    fault (redis w) = None /\
    entries (redis w) !! asHandle ticket name = Some ciphertext /\
    NewCFBDecrypter (Secret ticket) (Secret ticket) = Ok stream /\
    DecodeSessionState (string_of (XORKeyStream stream ciphertext)) (CookieCipher store)
    = Ok s.
Proof.
  unfold Load, bind, wrapping, lift, Now.
  destruct (req_Cookie req _) as [c|e|msg] eqn:Hcookie; [|done..].
  destruct (Validate c _ _ _) as [[val ts]|] eqn:Hvalid; [|done].
  unfold loadSessionFromString, bind, lift, redis_Get.
  destruct (decodeTicket _ val) as [t| |] eqn:Hdec; [|done..].
  destruct (fault (redis w)) eqn:Hfault; [done|].
  destruct (entries (redis w) !! _) as [ciphertext|] eqn:Hentry; [|done].
  destruct (aes_NewCipher (Secret t)) as [block| |] eqn:Hblock; [|done..].
  apply aes_NewCipher_Ok in Hblock as ->.
  destruct (NewCFBDecrypter _ _) as [stream| |] eqn:Hstream; [|done..].
  destruct (DecodeSessionState _ _) as [s'| |] eqn:Hs; [|done..].
  intros [= <- <-]. cbv zeta. exists c, t, ciphertext, stream.
  split; [done|]. split; [by exists val, ts|]. split; [by apply newCFB_Ok in Hstream|].
  done.
Qed.

(** X18.  [Load] reads of the cache only the entry under the handle of
    the request cookie's ticket: in two states at the same time whose
    caches are both up and agree on that entry, it returns the same. *)
Theorem Load_reads_its_own_entry_only (store : SessionStore) (req : Request)
  (w w' : World) :
  clock w' = clock w ->
  fault (redis w) = None -> fault (redis w') = None ->
  (forall c ticket,
      req_Cookie req (options.Name (CookieOptions store)) = Ok c ->
      carries store c (clock w) ticket ->
      entries (redis w') !! asHandle ticket (options.Name (CookieOptions store))
      = entries (redis w) !! asHandle ticket (options.Name (CookieOptions store))) ->
  (Load store req w').1 = (Load store req w).1.
Proof.
  intros Hclock Hfault Hfault' Hentry.
  unfold Load, bind, wrapping, lift, Now.
  destruct (req_Cookie req _) as [c|e|msg] eqn:Hcookie; [|done..].
  rewrite Hclock.
  destruct (Validate c _ _ _) as [[val ts]|] eqn:Hvalid; [|done].
  unfold loadSessionFromString, bind, lift, redis_Get.
  destruct (decodeTicket _ val) as [t| |] eqn:Hdec; [|done..].
  rewrite Hfault, Hfault', (Hentry c t eq_refl) by (by exists val, ts).
  destruct (entries (redis w) !! _); [|done].
  destruct (aes_NewCipher (Secret t)); [|done..].
  destruct (NewCFBDecrypter _ _); [|done..].
  by destruct (DecodeSessionState _ _).
Qed.

(** X19.  After [Clear] for a request cookie that carries a ticket, with
    the cache up, [Load] for any cookie that carries a ticket of that ID
    fails with the error of a cache miss, as long as the cache stays as
    [Clear] left it. *)
Theorem Load_after_Clear (store : SessionStore) (req : Request) (w : World)
  (c : Cookie) (ticket : TicketData) :
  let name := options.Name (CookieOptions store) in
  req_Cookie req name = Ok c ->
  carries store c (clock w) ticket ->
  fault (redis w) = None ->
  exists w1,
    Clear store req w = (Ok tt, w1) /\
    forall req' c' ticket' w2,
      redis w2 = redis w1 ->
      req_Cookie req' name = Ok c' ->
      carries store c' (clock w2) ticket' ->
      TicketID ticket' = TicketID ticket ->
      Load store req' w2 = (Err (ErrWrap "error loading session" ErrRedisNil), w2).
Proof.
  cbv zeta. intros Hcookie (val & ts & Hvalid & Hdec) Hfault.
  rewrite Clear_unfold. cbv zeta. rewrite Hcookie, Hvalid, Hdec, Hfault.
  eexists. split; [reflexivity|].
  intros req' c' ticket' w2 Hredis Hcookie' (val' & ts' & Hvalid' & Hdec') Hid.
  unfold Load, bind, wrapping, lift, Now. rewrite Hcookie', Hvalid'.
  unfold loadSessionFromString, bind, lift, redis_Get.
  rewrite Hdec', Hredis. cbn [redis set_redis set_response fault entries].
  unfold asHandle. rewrite Hid. by rewrite lookup_delete_eq.
Qed.

End Steps.

(* ===================================================================== *)
(** * The construction of the client *)
(* ===================================================================== *)

Section ConstructionFacts.
Context {X : X509}.

(** X20.  With both [UseSentinel] and [UseCluster] set the store is not
    constructed.  With one of them set the client is the failover or the
    cluster client of the addresses given, and nothing else is looked at:
    the connection URL is not parsed, the certificate file is not read,
    and [InsecureSkipTLSVerify] and [CAPath] have no effect. *)
Theorem sentinel_and_cluster_modes (D D' : Dialer) (opts opts' : RedisStoreOptions) :
  (UseSentinel opts = true -> UseCluster opts = true ->
   forall c cookieOpts,
     NewRedisSessionStore (D := D) {| SessionCipher := c; SessionRedis := opts |} cookieOpts
     = Refused (ErrConstructing ErrMutuallyExclusive)) /\
  (UseSentinel opts = true -> UseCluster opts = false ->
   newRedisCmdable (D := D) opts
   = Constructed (NewFailoverClient (SentinelMasterName opts)
                                    (SentinelConnectionURLs opts))) /\
  (UseSentinel opts = false -> UseCluster opts = true ->
   newRedisCmdable (D := D) opts
   = Constructed (NewClusterClient (ClusterConnectionURLs opts))) /\
  (UseSentinel opts = true \/ UseCluster opts = true ->
   UseSentinel opts' = UseSentinel opts -> UseCluster opts' = UseCluster opts ->
   SentinelMasterName opts' = SentinelMasterName opts ->
   SentinelConnectionURLs opts' = SentinelConnectionURLs opts ->
   ClusterConnectionURLs opts' = ClusterConnectionURLs opts ->
   newRedisCmdable (D := D') opts' = newRedisCmdable (D := D) opts).
Proof.
  unfold NewRedisSessionStore, newRedisCmdable. repeat split.
  - intros Hs Hc c cookieOpts. cbn. by rewrite Hs, Hc.
  - by intros -> ->.
  - by intros -> ->.
  - intros Hmode -> -> -> -> ->.
    destruct (UseSentinel opts), (UseCluster opts); try done. by destruct Hmode.
Qed.

Context {D : Dialer}.

(** X21.  [newRedisCmdable] dereferences a nil pointer exactly when it is
    to make a single client from a URL whose options come without a TLS
    configuration, and either [InsecureSkipTLSVerify] is set or [CAPath]
    names a file that can be read. *)
Theorem newRedisCmdable_nil_TLSConfig (opts : RedisStoreOptions) :
  newRedisCmdable opts = NilDereference <->
  UseSentinel opts = false /\ UseCluster opts = false /\
  exists opt,
    redis_ParseURL (ConnectionURL opts) = inr opt /\
    TLSConfig opt = None /\
    (InsecureSkipTLSVerify opts = true \/
     (CAPath opts <> "" /\ exists certs, ReadFile (CAPath opts) = inr certs)).
Proof.
  unfold newRedisCmdable, set_InsecureSkipVerify, set_RootCAs.
  destruct (UseSentinel opts), (UseCluster opts); cbn [andb];
    try (split; [done | by intros (? & ? & _)]).
  destruct (redis_ParseURL (ConnectionURL opts)) as [err|opt];
    [split; [done | by intros (_ & _ & ? & [=] & _)]|].
  destruct (InsecureSkipTLSVerify opts).
  - destruct (TLSConfig opt) as [tls|] eqn:Htls.
    + cbn [TLSConfig]. split; [|intros (_ & _ & opt' & [= <-] & Hnil & _); congruence].
      destruct (nonempty (CAPath opts)); [|done].
      by destruct (ReadFile (CAPath opts)).
    + split; [|done]. intros _. split; [done|]. split; [done|]. exists opt. eauto.
  - destruct (nonempty (CAPath opts)) eqn:Hca.
    + destruct (ReadFile (CAPath opts)) as [err|certs] eqn:Hread.
      * split; [done|]. by intros (_ & _ & opt' & _ & _ & [|(_ & ? & [=])]).
      * destruct (TLSConfig opt) as [tls|] eqn:Htls.
        -- split; [done|]. intros (_ & _ & opt' & [= <-] & Hnil & _). congruence.
        -- split; [|done]. intros _. split; [done|]. split; [done|]. exists opt.
           split; [done|]. split; [done|]. right. split; [by apply nonempty_true | eauto].
    + split; [done|]. intros (_ & _ & opt' & _ & _ & [|(Hne & _)]); [done|].
      by apply nonempty_true in Hne; congruence.
Qed.

(** X22.  The single client that [newRedisCmdable] constructs connects as
    the URL says: the address, the password and the database are those
    parsed from it.  With neither [InsecureSkipTLSVerify] nor [CAPath] the
    options are the parsed ones unchanged; [InsecureSkipTLSVerify] turns
    off the verification in the TLS configuration; with [CAPath] the root
    certificates are the system pool, or an empty pool when there is
    none, with the certificates of the file appended, also when the file
    holds none. *)
Theorem newRedisCmdable_single_client (opts : RedisStoreOptions) (opt' : redis_Options) :
  newRedisCmdable opts = Constructed (NewClient opt') ->
  exists opt,
    redis_ParseURL (ConnectionURL opts) = inr opt /\
    Addr opt' = Addr opt /\ Password opt' = Password opt /\ DB opt' = DB opt /\
    (InsecureSkipTLSVerify opts = false -> CAPath opts = "" -> opt' = opt) /\
    (InsecureSkipTLSVerify opts = true ->
     exists tls', TLSConfig opt' = Some tls' /\ InsecureSkipVerify tls' = true) /\
    (CAPath opts <> "" ->
     exists tls' certs,
       TLSConfig opt' = Some tls' /\
       ReadFile (CAPath opts) = inr certs /\
       RootCAs tls'
       = Some (AppendCertsFromPEM (default NewCertPool SystemCertPool) certs).1).
Proof.
  unfold newRedisCmdable, set_InsecureSkipVerify, set_RootCAs.
  destruct (UseSentinel opts), (UseCluster opts); cbn [andb]; try done.
  destruct (redis_ParseURL (ConnectionURL opts)) as [err|opt]; [done|].
  intros H. exists opt. split; [done|]. revert H.
  destruct (InsecureSkipTLSVerify opts).
  - destruct (TLSConfig opt) as [tls|] eqn:Htls; [|done]. cbn [TLSConfig].
    destruct (nonempty (CAPath opts)) eqn:Hca.
    + destruct (ReadFile (CAPath opts)) as [err|certs] eqn:Hread; [done|].
      intros [= <-]. cbn. repeat split; try done; eauto.
    + intros [= <-]. cbn. apply nonempty_false in Hca.
      repeat split; try done; eauto.
  - destruct (nonempty (CAPath opts)) eqn:Hca.
    + destruct (ReadFile (CAPath opts)) as [err|certs] eqn:Hread; [done|].
      destruct (TLSConfig opt) as [tls|] eqn:Htls; [|done].
      intros [= <-]. cbn. apply nonempty_true in Hca. repeat split; try done; eauto.
    + intros [= <-]. apply nonempty_false in Hca. repeat split; try done.
Qed.

End ConstructionFacts.

(* ===================================================================== *)
(** * Sessions from bearer tokens *)
(* ===================================================================== *)

(** X23.  [CreateSessionStateFromBearerToken] returns a session exactly
    when the claims can be read and the email is not marked as
    unverified.  The session's email is the email claim, or the subject
    when there is no email claim; its user is its email; the raw token is
    both access token and ID token; there is no refresh token and no
    [CreatedAt]; it expires when the token does. *)
Theorem bearer_session (p : ProviderData) (rawIDToken : string) (idToken : oidc.IDToken) :
  (forall s,
      CreateSessionStateFromBearerToken p rawIDToken idToken = inr s <->
      exists claims,
        oidc.Claims idToken = Success claims /\
        oidc.Verified claims <> Some false /\
        s = {| Email := if nonempty (oidc.Email claims) then oidc.Email claims
                        else oidc.Subject claims;
               User := if nonempty (oidc.Email claims) then oidc.Email claims
                       else oidc.Subject claims;
               PreferredUsername := oidc.PreferredUsername claims;
               AccessToken := rawIDToken; IDToken := rawIDToken; RefreshToken := "";
               ExpiresOn := Some (oidc.Expiry idToken); CreatedAt := None |}) /\
  (forall s,
      CreateSessionStateFromBearerToken p rawIDToken idToken = inr s ->
      User s = Email s /\ AccessToken s = IDToken s /\ RefreshToken s = "" /\
      CreatedAt s = None).
Proof.
  unfold CreateSessionStateFromBearerToken.
  destruct (oidc.Claims idToken) as [claims|err].
  - split.
    + intros s. split.
      * destruct (oidc.Verified claims) as [[|]|] eqn:Hv; [|done|];
          intros [= <-]; exists claims; by rewrite Hv.
      * intros (claims' & [= <-] & Hv & ->).
        by destruct (oidc.Verified claims) as [[|]|].
    + intros s. by destruct (oidc.Verified claims) as [[|]|]; [|done|]; intros [= <-].
  - split; [|done]. intros s. split; [done|]. by intros (claims & [=] & _).
Qed.

Section BearerCodec.
Context {J : JSONText} {JL : JSONTextLaws J}.

(** X24.  A session made from a bearer token comes back from
    [EncodeSessionState] and [DecodeSessionState] under a cipher exactly
    as it was: its user is set whenever its email is, so the default that
    decoding applies to the user changes nothing. *)
Theorem bearer_session_roundtrip (p : ProviderData) (rawIDToken : string)
  (idToken : oidc.IDToken) (s : SessionState) (c : Cipher) (w w' : World) (v : string) :
  CipherLaws c ->
  CreateSessionStateFromBearerToken p rawIDToken idToken = inr s ->
  EncodeSessionState s (Some c) w = (Ok v, w') ->
  DecodeSessionState v (Some c) = Ok s.
Proof.
  intros CL Hs Henc. rewrite (roundtrip_cipher c s w w' v CL Henc). f_equal.
  assert (Hu : User s = Email s).
  { revert Hs. unfold CreateSessionStateFromBearerToken.
    destruct (oidc.Claims idToken) as [claims|]; [|done].
    by destruct (oidc.Verified claims) as [[|]|]; [|done|]; intros [= <-]. }
  unfold default_user. destruct s as [? ? ? ? ? em us ?]. cbn in *. subst us.
  by destruct em.
Qed.

End BearerCodec.

Section BearerSummary.
Context {T : TimeString}.

(** X25.  A session made from a bearer token has no [CreatedAt]: its age is
    zero at any time, and [String] panics on it. *)
Theorem bearer_session_unstamped (p : ProviderData) (rawIDToken : string)
  (idToken : oidc.IDToken) (s : SessionState) :
  CreateSessionStateFromBearerToken p rawIDToken idToken = inr s ->
  (forall now, Age s now = 0) /\
  SessionState_String s = Panic "invalid memory address or nil pointer dereference".
Proof.
  intros Hs.
  assert (Hc : CreatedAt s = None).
  { revert Hs. unfold CreateSessionStateFromBearerToken.
    destruct (oidc.Claims idToken) as [claims|]; [|done].
    by destruct (oidc.Verified claims) as [[|]|]; [|done|]; intros [= <-]. }
  split.
  - intros now. unfold Age. by rewrite Hc.
  - unfold SessionState_String. by rewrite Hc.
Qed.

End BearerSummary.

(* ===================================================================== *)
(** * The sample environment keeps the laws *)
(* ===================================================================== *)

Module SampleFacts.
Import Sample.

Lemma run_escape acc k s rest :
  run (PInKey acc k false) (escape s +:+ rest)
  = run (PInKey acc (rev (bytes_of s) ++ k) false) rest.
Proof.
  revert k. induction s as [|c r IH]; intros k; [done|].
  cbn [escape bytes_of list_ascii_of_string rev].
  rewrite <- app_assoc. cbn [app]. rewrite <- IH.
  destruct (special c) eqn:Hc.
  - rewrite !sapp_cons. cbn [run step]. by rewrite Ascii.eqb_refl.
  - rewrite sapp_cons. cbn [run step]. unfold special in Hc.
    apply orb_false_elim in Hc as [Hq Hb]. by rewrite Hb, Hq.
Qed.

Lemma run_escape_value acc key k s rest :
  run (PInStr acc key k false) (escape s +:+ rest)
  = run (PInStr acc key (rev (bytes_of s) ++ k) false) rest.
Proof.
  revert k. induction s as [|c r IH]; intros k; [done|].
  cbn [escape bytes_of list_ascii_of_string rev].
  rewrite <- app_assoc. cbn [app]. rewrite <- IH.
  destruct (special c) eqn:Hc.
  - rewrite !sapp_cons. cbn [run step]. by rewrite Ascii.eqb_refl.
  - rewrite sapp_cons. cbn [run step]. unfold special in Hc.
    apply orb_false_elim in Hc as [Hq Hb]. by rewrite Hb, Hq.
Qed.

Lemma string_of_rev_rev s : string_of (rev (rev (bytes_of s) ++ [])) = s.
Proof. by rewrite app_nil_r, rev_involutive, string_of_bytes_of. Qed.

Lemma run_quote acc s rest :
  run (PKey acc) (quote s +:+ rest) = run (PColon acc s) rest.
Proof.
  unfold quote. rewrite sapp_cons, sapp_assoc, sapp_cons, sapp_empty.
  cbn [run step]. rewrite Ascii.eqb_refl, run_escape.
  cbn [run step]. rewrite Ascii.eqb_refl. cbn. by rewrite string_of_rev_rev.
Qed.

Lemma run_value acc k v rest :
  run (PValue acc k) (value_text v +:+ rest) = run (PAfter ((k, v) :: acc)) rest.
Proof.
  destruct v as [|s|]; [done| |done].
  cbn [value_text]. unfold quote. rewrite sapp_cons, sapp_assoc, sapp_cons, sapp_empty.
  cbn [run step]. rewrite Ascii.eqb_refl, run_escape_value.
  cbn [run step]. rewrite Ascii.eqb_refl. cbn. by rewrite string_of_rev_rev.
Qed.

Lemma run_member acc m rest :
  run (PKey acc) (member_text m +:+ rest) = run (PAfter (m :: acc)) rest.
Proof.
  destruct m as [k v]. unfold member_text. cbn [fst snd].
  rewrite sapp_assoc, run_quote, sapp_assoc. rewrite sapp_cons, sapp_empty.
  cbn [run step]. rewrite Ascii.eqb_refl. apply run_value.
Qed.

Lemma run_members o : forall acc rest,
  o <> [] ->
  run (PKey acc) (members_text o +:+ rest) = run (PAfter (rev o ++ acc)) rest.
Proof.
  induction o as [|m o IH]; intros acc rest Ho; [done|].
  destruct o as [|m' o].
  - cbn [members_text rev app]. apply run_member.
  - cbn [members_text]. rewrite sapp_assoc, run_member, sapp_assoc.
    rewrite sapp_cons, sapp_empty. cbn [run step]. rewrite Ascii.eqb_refl.
    rewrite IH by done. cbn [rev]. by rewrite <- !app_assoc.
Qed.

Lemma run_first m o rest :
  run PFirst (members_text (m :: o) +:+ rest)
  = run (PKey []) (members_text (m :: o) +:+ rest).
Proof.
  assert (H : exists x, members_text (m :: o) +:+ rest = String dquote x).
  { destruct m as [k v]. cbn [members_text]. unfold member_text, quote. cbn [fst].
    destruct o; rewrite ?sapp_assoc, sapp_cons; eauto. }
  destruct H as [x ->]. done.
Qed.

Lemma parse_text o : parse (text o) = Some o.
Proof.
  unfold parse, text. rewrite sapp_cons, sapp_empty. cbn [run step].
  rewrite Ascii.eqb_refl. destruct o as [|m o]; [done|].
  rewrite run_first, run_members by done.
  cbn -[rev app]. by rewrite app_nil_r, rev_involutive.
Qed.

Lemma of_decimal_decimal z : of_decimal (decimal z) = Some z.
Proof.
  unfold of_decimal, decimal. rewrite NilEmpty.isi.
  unfold fmap, option_fmap, option_map. by rewrite DecimalZ.of_to.
Qed.

Lemma json_laws : JSONTextLaws json.
Proof.
  split.
  - intros o _. apply parse_text.
  - intros t s. cbn. destruct ((year0 <=? t) && (t <? year10000)); [|done].
    intros [= <-]. apply of_decimal_decimal.
Qed.

(** *** The cipher *)

Lemma Base64_nonempty b : b <> [] -> Base64.EncodeToString b <> "".
Proof.
  unfold Base64.EncodeToString. destruct b as [|[] [|[] [|[] r]]]; done.
Qed.

Lemma cipher_laws k : CipherLaws (cipher k).
Proof.
  split; cbn; unfold seal; intros p r ct r';
    destruct (length r <? BlockSize)%nat eqn:Hlen; try done;
    apply Nat.ltb_ge in Hlen; intros [= <- _].
  - unfold unseal. rewrite Base64Facts.b64_DecodeString_EncodeToString.
    assert (Htake : length (take BlockSize r) = BlockSize) by (rewrite length_take; lia).
    rewrite length_app, Htake.
    destruct (BlockSize + length _ <? BlockSize)%nat eqn:Hlt; [apply Nat.ltb_lt in Hlt; lia|].
    rewrite take_app_length', drop_app_length' by done.
    by rewrite xorKeyStream_inverse, string_of_bytes_of.
  - apply Base64_nonempty. destruct r; [cbn in Hlen; unfold BlockSize in Hlen; lia|done].
Qed.

(** *** The signer *)

Lemma uint_free sep d :
  Ascii.eqb "0" sep = false -> Ascii.eqb "1" sep = false -> Ascii.eqb "2" sep = false ->
  Ascii.eqb "3" sep = false -> Ascii.eqb "4" sep = false -> Ascii.eqb "5" sep = false ->
  Ascii.eqb "6" sep = false -> Ascii.eqb "7" sep = false -> Ascii.eqb "8" sep = false ->
  Ascii.eqb "9" sep = false ->
  free_of sep (NilEmpty.string_of_uint d) = true.
Proof.
  intros H0 H1 H2 H3 H4 H5 H6 H7 H8 H9. unfold free_of.
  induction d; cbn [NilEmpty.string_of_uint string_all];
    rewrite ?H0, ?H1, ?H2, ?H3, ?H4, ?H5, ?H6, ?H7, ?H8, ?H9; done.
Qed.

Lemma decimal_free z : free_of "|" (decimal z) = true.
Proof.
  unfold decimal. destruct (Z.to_int z) as [d|d]; cbn.
  - by apply uint_free.
  - unfold free_of. cbn. by apply uint_free.
Qed.

Lemma Hex_free b : free_of "|" (Hex.EncodeToString b) = true.
Proof.
  unfold free_of, Hex.EncodeToString. rewrite string_all_string_of.
  induction b as [|[b0 b1 b2 b3 b4 b5 b6 b7] r IH]; [done|].
  cbn [Hex.encode forallb]. rewrite IH.
  by destruct b0, b1, b2, b3, b4, b5, b6, b7.
Qed.

Lemma Base64_free b : free_of "|" (Base64.EncodeToString b) = true.
Proof.
  unfold free_of, Base64.EncodeToString. rewrite string_all_string_of.
  apply Base64Facts.b64_encode_chars.
  intros s. destruct s as [[[[[[] []] []] []] []] []]; vm_compute; reflexivity.
Qed.

Lemma signer_laws : SignerLaws signer.
Proof.
  split. intros seed c value t expiration now Hvalue Hpast Hage. cbn in *.
  unfold validate, sign in *. rewrite Hvalue.
  rewrite Split_app by apply Base64_free.
  rewrite Split_app by apply decimal_free.
  rewrite Split_free by apply Hex_free.
  rewrite String.eqb_refl, of_decimal_decimal.
  destruct (now <? t) eqn:H1; [apply Z.ltb_lt in H1; lia|].
  destruct (expiration <? now - t) eqn:H2; [apply Z.ltb_lt in H2; lia|].
  cbn. rewrite Base64Facts.b64_DecodeString_EncodeToString, string_of_bytes_of. eauto.
Qed.

End SampleFacts.

(* ===================================================================== *)
(** * The theorems at concrete inputs *)
(* ===================================================================== *)

Module Concrete.
Import Sample SampleFacts.

#[local] Existing Instance block.
#[local] Existing Instance json.
#[local] Existing Instance signer.

(** The sample session under the sample cipher. *)
Lemma Decode_Encode_cipher_witness :
  CipherLaws (cipher key) /\
  exists v w',
    EncodeSessionState session (Some (cipher key)) world = (Ok v, w') /\
    DecodeSessionState v (Some (cipher key)) = Ok session.
Proof.
  split; [apply cipher_laws|].
  eexists _, _. split; [vm_compute; reflexivity|].
  refine (Decode_Encode_cipher (JL := json_laws) (cipher key) session world _ _
            (cipher_laws key) _).
  vm_compute; reflexivity.
Defined.

(** A session written before the email was encrypted: the email does not
    decrypt and is kept. *)
Lemma Decode_decryption_failure_witness :
  json_Unmarshal legacy = Ok (set_string FEmail "john.doe@example.com" zero_SessionState) /\
  exists s,
    DecodeSessionState legacy (Some (cipher key)) = Ok s /\
    Email s = "john.doe@example.com".
Proof.
  split; [vm_compute; reflexivity|].
  destruct (Decode_decryption_failure (cipher key) legacy
              (set_string FEmail "john.doe@example.com" zero_SessionState))
    as [_ Hsoft]; [vm_compute; reflexivity|].
  destruct Hsoft as (s & Hs & Hemail & _).
  - intros f Hf. left. unfold hard_fields in Hf. rewrite !elem_of_cons, elem_of_nil in Hf.
    destruct Hf as [->|[->|[->|[->|[]]]]]; reflexivity.
  - exists s. split; [exact Hs|]. rewrite Hemail. vm_compute; reflexivity.
Defined.



(** Without a request cookie the ticket is minted. *)
Lemma getTicket_policy_witness :
  getTicket store None world = newTicket world.
Proof.
  destruct (getTicket_policy store None world) as (_ & Hnew & _).
  apply Hnew. by left.
Defined.


(** Without a request cookie [Clear] returns no error. *)
Lemma Clear_outcome_witness :
  exists w', Clear store request world = (Ok tt, w').
Proof.
  destruct (Clear_outcome store request world) as (r & w' & Hclear & _ & _ & Hnone & _).
  destruct (Hnone eq_refl) as [-> _]. by exists w'.
Defined.

(** A signed cookie whose ticket has a secret of one byte. *)
Lemma bad_secret_length_witness :
  Validate (signed "_oauth2_proxy-ab.AA") "secret" (168 * Hour) noon
  = Some ("_oauth2_proxy-ab.AA", noon) /\
  decodeTicket "_oauth2_proxy" "_oauth2_proxy-ab.AA"
  = Ok {| TicketID := "ab"; Secret := ["000"%char] |} /\
  ~ aes_key_length 1 /\
  storeValue store "value" (168 * Hour) (Some (signed "_oauth2_proxy-ab.AA")) world
  = (Err (ErrWrap "error initiating cipher block" (ErrKeySize 1)), world).
Proof.
  assert (Hlen : ~ aes_key_length 1) by (intros [H|[H|H]]; discriminate H).
  split; [vm_compute; reflexivity|]. split; [vm_compute; reflexivity|].
  split; [exact Hlen|].
  destruct (bad_secret_length store world (signed "_oauth2_proxy-ab.AA")
              "_oauth2_proxy-ab.AA" noon {| TicketID := "ab"; Secret := ["000"%char] |})
    as [_ Hstore]; [vm_compute; reflexivity | vm_compute; reflexivity | exact Hlen |].
  apply Hstore.
Defined.

(** The broken session of the store's tests: a valid cookie whose value is
    no ticket. *)
Lemma Clear_undecodable_ticket_witness :
  let broken := "BrokenSessionFromADifferentSessionImplementation" in
  let req := AddCookie request (signed broken) in
  req_Cookie req "_oauth2_proxy" = Ok (signed broken) /\
  Validate (signed broken) "secret" (168 * Hour) noon = Some (broken, noon) /\
  (forall t, decodeTicket "_oauth2_proxy" broken <> Ok t) /\
  Clear store req world
  = (Ok tt, set_response [{| Name := "_oauth2_proxy"; Value := "";
                             Expires := noon - Hour |}] world).
Proof.
  intros broken req.
  assert (Hdec : forall t, decodeTicket "_oauth2_proxy" broken <> Ok t).
  { intros t. vm_compute. discriminate. }
  split; [vm_compute; reflexivity|]. split; [vm_compute; reflexivity|].
  split; [exact Hdec|].
  refine (Clear_undecodable_ticket store req world (signed broken) broken noon _ _ Hdec);
    vm_compute; reflexivity.
Defined.

(** ** Where a sentence of the specification fails on the code *)



(** C7: a request cookie that fails validation makes [Clear] return an
    error, although the cache is in order and no delete was tried. *)
Lemma Clear_invalid_cookie_is_an_error :
  let req := AddCookie request
               {| Name := "_oauth2_proxy"; Value := "tampered"; Expires := noon |} in
  fault (redis world) = None /\
  exists w', Clear store req world = (Err ErrSignature, w') /\ redis w' = redis world.
Proof.
  intros req. split; [reflexivity|].
  eexists. split; [vm_compute; reflexivity|]. reflexivity.
Defined.

(** C9: with nothing in the cache under the ticket, the error of [Load] is
    the cache's, not the one of the AES cipher construction. *)
Lemma Load_bad_secret_cache_miss :
  let c := signed "_oauth2_proxy-ab.AA" in
  Validate c "secret" (168 * Hour) noon = Some ("_oauth2_proxy-ab.AA", noon) /\
  decodeTicket "_oauth2_proxy" "_oauth2_proxy-ab.AA"
  = Ok {| TicketID := "ab"; Secret := ["000"%char] |} /\
  Load store (AddCookie request c) world
  = (Err (ErrWrap "error loading session" ErrRedisNil), world) /\
  forall n, ErrWrap "error loading session" ErrRedisNil
            <> ErrWrap "error loading session" (ErrKeySize n).
Proof.
  intros c. split; [vm_compute; reflexivity|]. split; [vm_compute; reflexivity|].
  split; [vm_compute; reflexivity|]. discriminate.
Defined.

End Concrete.

(* ===================================================================== *)
(** * More scenarios *)
(* ===================================================================== *)

Module Scenarios.
Import Sample SampleFacts Fixture.

#[local] Existing Instance block.
#[local] Existing Instance json.
#[local] Existing Instance signer.
#[local] Existing Instance time_string.
#[local] Existing Instance x509.
#[local] Existing Instance dialer.

(** A session that expires an hour after noon is not expired then, and is
    expired from the next nanosecond on. *)
Lemma IsExpired_strict_and_permanent_witness :
  IsExpired session (noon + Hour) = false /\
  IsExpired session (noon + 2 * Hour) = true.
Proof.
  destruct (IsExpired_strict_and_permanent session) as [Hstrict Hperm]. split.
  - exact (Hstrict (noon + Hour) eq_refl).
  - apply (Hperm (noon + Hour + 1)); [reflexivity | unfold Hour; lia].
Defined.

(** A session created half a second after noon has, 0.7 seconds after
    noon, the age of minus half a second. *)
Lemma Age_lags_less_than_a_second_witness :
  Age stamped (noon + 700000000) = -500000000.
Proof.
  destruct (Age_lags_less_than_a_second stamped (noon + 700000000)) as [Hage _].
  destruct (Hage (noon + 500000000) eq_refl) as [-> _].
  - unfold noon. lia.
  - unfold minDuration, maxDuration, Second, noon. lia.
  - reflexivity.
Defined.

(** The sample session has no [CreatedAt]. *)
Lemma String_panics_on_nil_timestamp_witness :
  SessionState_String session = Panic "invalid memory address or nil pointer dereference".
Proof. apply String_panics_on_nil_timestamp. by left. Defined.

Lemma String_hides_tokens_witness :
  AccessToken renewed <> AccessToken stamped /\
  SessionState_String renewed = SessionState_String stamped /\
  SessionState_String stamped
  = Ok "Session{email:john.doe@example.com user:john.doe PreferredUsername: token:true id_token:true created:63700000000500000000 expires:63700003600000000000 refresh_token:true}".
Proof.
  split; [discriminate|]. split.
  - apply String_hides_tokens. by repeat split.
  - vm_compute; reflexivity.
Defined.

(** A session written before the email was encrypted. *)
Lemma Decode_user_defaults_to_email_witness :
  exists s, DecodeSessionState legacy (Some (cipher key)) = Ok s /\
            Email s = "john.doe@example.com" /\ User s <> "".
Proof.
  assert (H : DecodeSessionState legacy (Some (cipher key))
              = Ok {| AccessToken := ""; IDToken := ""; CreatedAt := None;
                      ExpiresOn := None; RefreshToken := "";
                      Email := "john.doe@example.com"; User := "john.doe@example.com";
                      PreferredUsername := "" |})
    by (vm_compute; reflexivity).
  eexists. split; [exact H|]. split; [reflexivity|]. intros Hu.
  discriminate (Decode_user_defaults_to_email (J := json) legacy (Some (cipher key)) _ H Hu).
Defined.

(** A text with a token and an expiry, read without a cipher. *)
Lemma Decode_without_cipher_forgets_witness :
  let v := json_text [("Email", JString "john.doe@example.com");
                      ("AccessToken", JString "AccessToken");
                      ("ExpiresOn", JString "1")] in
  (exists ss, json_Unmarshal v = Ok ss /\ AccessToken ss = "AccessToken" /\
              ExpiresOn ss = Some 1) /\
  exists s, DecodeSessionState v None = Ok s /\ AccessToken s = "" /\
            IsExpired s noon = false.
Proof.
  intros v. split; [eexists; split; [vm_compute; reflexivity|by split]|].
  eexists. split; [vm_compute; reflexivity|].
  edestruct (Decode_without_cipher_forgets v) as (Ha & _ & _ & _ & _ & Hnow);
    [vm_compute; reflexivity|].
  split; [exact Ha | apply (Hnow noon)].
Defined.

Lemma encodeTicket_roundtrip_witness :
  let ticket := {| TicketID := "ab"; Secret := ["000"%char] |} in
  encodeTicket ticket "_oauth2_proxy" = "_oauth2_proxy-ab.AA" /\
  decodeTicket "_oauth2_proxy" "_oauth2_proxy-ab.AA" = Ok ticket.
Proof.
  intros ticket. split; [reflexivity|].
  apply (encodeTicket_roundtrip "_oauth2_proxy" ticket). vm_compute. eauto.
Defined.

(** The broken session of the store's tests is no ticket handle; a ticket
    ID that is not hexadecimal is reported before a secret that is not
    base64. *)
Lemma decodeTicket_errors_witness :
  decodeTicket "_oauth2_proxy" "BrokenSessionFromADifferentSessionImplementation"
  = Err ErrTicketHandle /\
  decodeTicket "_oauth2_proxy" "_oauth2_proxy-xyz.!!" = Err ErrTicketSanity.
Proof.
  destruct (decodeTicket_errors "_oauth2_proxy") as (Hhandle & _ & _ & Hsanity & _).
  split.
  - apply Hhandle. reflexivity.
  - apply (Hsanity "xyz" "!!"); reflexivity.
Defined.

Lemma Save_writes_one_entry_and_the_ticket_cookie_witness :
  exists s1 w1 ticket ciphertext,
    Save store request session world = (Ok s1, w1) /\
    CreatedAt s1 = Some noon /\
    length (Secret ticket) = 16%nat /\
    response w1
    = [{| Name := "_oauth2_proxy";
          Value := sign "secret" "_oauth2_proxy" (encodeTicket ticket "_oauth2_proxy") noon;
          Expires := noon + 168 * Hour |}] /\
    redis w1 = {| entries := {[ asHandle ticket "_oauth2_proxy" := ciphertext ]};
                  fault := None |}.
Proof.
  destruct (Save store request session world) as [r w1] eqn:Hsave.
  assert (Hr : is_Ok r = true).
  { replace r with (Save store request session world).1 by (by rewrite Hsave).
    vm_compute; reflexivity. }
  destruct r as [s1| |]; [|done..].
  destruct (Save_writes_one_entry_and_the_ticket_cookie store request session s1 world w1
              Hsave)
    as (Hs1 & _ & ticket & value & wa & ciphertext & _ & Hsecret & _ & Hresp & Hredis).
  exists s1, w1, ticket, ciphertext. split; [reflexivity|]. split; [by rewrite Hs1|].
  split; [exact Hsecret|]. split; [exact Hresp|]. exact Hredis.
Defined.

(** With the cache down [Save] returns the cache's error. *)
Lemma Save_failure_writes_nothing_witness :
  exists w1,
    Save store request session down = (Err (ErrRedis "connection refused"), w1) /\
    response w1 = [] /\ redis w1 = redis down.
Proof.
  eexists. split; [vm_compute; reflexivity|].
  edestruct (Save_failure_writes_nothing store request session down) as (Hredis & Hresp & _);
    [vm_compute; reflexivity | reflexivity |].
  split; [exact Hresp | exact Hredis].
Defined.

Lemma Save_mints_ticket_witness :
  exists value wa stream w1,
    EncodeSessionState (set_time FCreatedAt (Some noon) session) (Some (cipher key)) world
    = (Ok value, wa) /\
    NewCFBEncrypter (take 16 (drop 16 (entropy wa))) (take 16 (drop 16 (entropy wa)))
    = Ok stream /\
    Save store request session world
    = (Ok (set_time FCreatedAt (Some noon) session), w1) /\
    entropy w1 = drop 32 (entropy wa) /\
    entries (redis w1)
    !! asHandle {| TicketID := Hex.EncodeToString (take 16 (entropy wa));
                   Secret := take 16 (drop 16 (entropy wa)) |} "_oauth2_proxy"
    = Some (XORKeyStream stream (bytes_of value)).
Proof.
  eexists _, _.
  edestruct (Save_mints_ticket store request session world) as (stream & Hstream & Hsave).
  - vm_compute; reflexivity.
  - reflexivity.
  - vm_compute. lia.
  - intros c Hc. discriminate Hc.
  - eexists stream, _. split; [vm_compute; reflexivity|]. split; [exact Hstream|].
    split; [exact Hsave|]. split; [reflexivity|].
    cbn [redis entries]. apply lookup_insert_eq.
Defined.

Lemma Save_reuses_ticket_witness :
  let ticket := {| TicketID := "ab"; Secret := replicate 16 "000"%char |} in
  exists value wa stream w1,
    EncodeSessionState (set_time FCreatedAt (Some noon) session) (Some (cipher key)) world
    = (Ok value, wa) /\
    Save store (AddCookie request short_ticket) session world
    = (Ok (set_time FCreatedAt (Some noon) session), w1) /\
    entropy w1 = entropy wa /\
    entries (redis w1) !! "_oauth2_proxy-ab" = Some (XORKeyStream stream (bytes_of value)) /\
    response w1
    = [{| Name := "_oauth2_proxy";
          Value := sign "secret" "_oauth2_proxy" "_oauth2_proxy-ab.AAAAAAAAAAAAAAAAAAAAAA" noon;
          Expires := noon + 168 * Hour |}].
Proof.
  intros ticket. eexists _, _.
  edestruct (Save_reuses_ticket store (AddCookie request short_ticket) session world)
    with (c := short_ticket) (ticket := ticket) as (stream & Hstream & Hsave).
  - reflexivity.
  - exists "_oauth2_proxy-ab.AAAAAAAAAAAAAAAAAAAAAA", noon.
    split; vm_compute; reflexivity.
  - reflexivity.
  - vm_compute; reflexivity.
  - reflexivity.
  - eexists stream, _. split; [vm_compute; reflexivity|]. split; [exact Hsave|].
    split; [reflexivity|]. split; [cbn [redis entries]; apply lookup_insert_eq|].
    reflexivity.
Defined.

Lemma Save_ignores_unusable_cookie_witness :
  Save store broken session world = Save store request session world.
Proof.
  apply (Save_ignores_unusable_cookie store broken session world
           (signed "BrokenSessionFromADifferentSessionImplementation")).
  - reflexivity.
  - intros t (val & ts & Hvalid & Hdec).
    vm_compute in Hvalid. injection Hvalid as <- <-. vm_compute in Hdec. discriminate Hdec.
Defined.

Lemma long_secret_panics_witness :
  carries store long_ticket noon {| TicketID := "ab"; Secret := replicate 24 "000"%char |} /\
  storeValue store "value" (168 * Hour) (Some long_ticket) world
  = (Panic "cipher.newCFB: IV length must equal block size", world).
Proof.
  assert (Hcarries : carries store long_ticket noon
                       {| TicketID := "ab"; Secret := replicate 24 "000"%char |}).
  { exists "_oauth2_proxy-ab.AAAAAAAAAAAAAAAAAAAAAAAAAAAAAAAA", noon.
    split; vm_compute; reflexivity. }
  split; [exact Hcarries|].
  destruct (long_secret_panics store world long_ticket _ Hcarries) as [Hstore _];
    [by left|].
  apply Hstore.
Defined.

(** [Load] of the saved session gives it back, stamped. *)
Lemma Load_returns_only_stored_sessions_witness :
  exists ticket ciphertext,
    Load store returning saved = (Ok (set_time FCreatedAt (Some noon) session), saved) /\
    carries store ticket_cookie noon ticket /\
    entries (redis saved) !! asHandle ticket "_oauth2_proxy" = Some ciphertext.
Proof.
  assert (Hload : Load store returning saved
                  = (Ok (set_time FCreatedAt (Some noon) session), saved))
    by (vm_compute; reflexivity).
  destruct (Load_returns_only_stored_sessions store returning saved saved _ Hload)
    as (c & ticket & ciphertext & stream & Hc & Hcarries & _ & _ & Hentry & _).
  injection Hc as <-.
  exists ticket, ciphertext. split; [exact Hload|]. split; [exact Hcarries | exact Hentry].
Defined.

(** A second session in the cache does not change what [Load] returns
    for the first. *)
Lemma Load_reads_its_own_entry_only_witness :
  size (entries (redis saved)) = 1%nat /\
  size (entries (redis saved_twice)) = 2%nat /\
  (Load store returning saved_twice).1 = Ok (set_time FCreatedAt (Some noon) session).
Proof.
  split; [vm_compute; reflexivity|]. split; [vm_compute; reflexivity|].
  rewrite (Load_reads_its_own_entry_only store returning saved saved_twice).
  - vm_compute; reflexivity.
  - vm_compute; reflexivity.
  - vm_compute; reflexivity.
  - vm_compute; reflexivity.
  - intros c ticket Hc (val & ts & Hvalid & Hdec).
    injection Hc as <-. vm_compute in Hvalid. injection Hvalid as <- <-.
    vm_compute in Hdec. injection Hdec as <-. vm_compute; reflexivity.
Defined.

(** [Save], then [Clear], then [Load], each with the cookie of [Save]. *)
Lemma Load_after_Clear_witness :
  exists w1,
    Clear store returning saved = (Ok tt, w1) /\
    Load store returning w1 = (Err (ErrWrap "error loading session" ErrRedisNil), w1).
Proof.
  edestruct (Load_after_Clear store returning saved ticket_cookie) as (w1 & Hclear & Hload).
  - reflexivity.
  - eexists _, _. split; vm_compute; reflexivity.
  - reflexivity.
  - exists w1. split; [exact Hclear|].
    assert (Hclock : clock w1 = noon).
    { replace w1 with (Clear store returning saved).2 by (by rewrite Hclear).
      vm_compute; reflexivity. }
    eapply (Hload returning ticket_cookie).
    + reflexivity.
    + reflexivity.
    + rewrite Hclock. eexists _, _. split; vm_compute; reflexivity.
    + reflexivity.
Defined.

Lemma sentinel_and_cluster_modes_witness :
  NewRedisSessionStore {| SessionCipher := None;
                          SessionRedis := redis_options "redis://cache:6379" true true
                                                        "" false |} cookieOpts
  = Refused (ErrConstructing ErrMutuallyExclusive) /\
  newRedisCmdable (redis_options "no url" true false "/no/such/file" true)
  = Constructed (NewFailoverClient "mymaster" ["sentinel-1:26379"; "sentinel-2:26379"]).
Proof.
  destruct (sentinel_and_cluster_modes dialer dialer
              (redis_options "redis://cache:6379" true true "" false)
              (redis_options "redis://cache:6379" true true "" false))
    as (Hboth & _).
  destruct (sentinel_and_cluster_modes dialer dialer
              (redis_options "no url" true false "/no/such/file" true)
              (redis_options "no url" true false "/no/such/file" true))
    as (_ & Hsentinel & _).
  split; [by apply Hboth | by apply Hsentinel].
Defined.

(** A URL of the scheme [redis] and [InsecureSkipTLSVerify]. *)
Lemma newRedisCmdable_nil_TLSConfig_witness :
  newRedisCmdable (redis_options "redis://cache:6379" false false "" true) = NilDereference.
Proof.
  apply newRedisCmdable_nil_TLSConfig. split; [reflexivity|]. split; [reflexivity|].
  eexists. split; [vm_compute; reflexivity|]. split; [reflexivity|]. by left.
Defined.

(** A URL of the scheme [rediss], a certificate file and
    [InsecureSkipTLSVerify]. *)
Lemma newRedisCmdable_single_client_witness :
  exists opt' tls',
    newRedisCmdable (redis_options "rediss://cache:6379" false false
                                   "/etc/ssl/redis-ca.pem" true)
    = Constructed (NewClient opt') /\
    Addr opt' = "cache:6379" /\
    TLSConfig opt' = Some tls' /\
    InsecureSkipVerify tls' = true /\
    RootCAs tls'
    = Some [bytes_of "system root";
            bytes_of "-----BEGIN CERTIFICATE----- MIIB -----END CERTIFICATE-----"].
Proof.
  eexists _, _.
  edestruct (newRedisCmdable_single_client
               (redis_options "rediss://cache:6379" false false "/etc/ssl/redis-ca.pem" true))
    as (opt & Hopt & Haddr & _ & _ & _ & Hinsecure & Hca).
  - vm_compute; reflexivity.
  - split; [vm_compute; reflexivity|]. split; [reflexivity|]. split; [reflexivity|].
    split; reflexivity.
Defined.

Lemma bearer_session_witness :
  exists s,
    CreateSessionStateFromBearerToken provider "raw.id.token" bearer = inr s /\
    Email s = "1234567890" /\ User s = "1234567890".
Proof.
  destruct (bearer_session provider "raw.id.token" bearer) as [Hiff _].
  eexists. split.
  - apply Hiff. eexists. split; [reflexivity|]. split; [discriminate | reflexivity].
  - split; reflexivity.
Defined.

Lemma bearer_session_roundtrip_witness :
  exists s v w',
    CreateSessionStateFromBearerToken provider "raw.id.token" bearer = inr s /\
    EncodeSessionState s (Some (cipher key)) world = (Ok v, w') /\
    DecodeSessionState v (Some (cipher key)) = Ok s.
Proof.
  eexists _, _, _. split; [reflexivity|]. split; [vm_compute; reflexivity|].
  refine (bearer_session_roundtrip (JL := json_laws) provider "raw.id.token" bearer _
            (cipher key) world _ _ (cipher_laws key) eq_refl _).
  vm_compute; reflexivity.
Defined.

Lemma bearer_session_unstamped_witness :
  exists s,
    CreateSessionStateFromBearerToken provider "raw.id.token" bearer = inr s /\
    Age s noon = 0 /\
    SessionState_String s = Panic "invalid memory address or nil pointer dereference".
Proof.
  eexists. split; [reflexivity|].
  destruct (bearer_session_unstamped provider "raw.id.token" bearer _ eq_refl)
    as [Hage Hstring].
  split; [apply Hage | exact Hstring].
Defined.

End Scenarios.
